(** * The SSE <-> stdio bridge of simplest-mcp (remote/proxy.js)

    A shallow embedding of [src/remote/proxy.js] and of its earlier variant
    [src/unnamed/part_000], with the properties of the natural-language
    specification stated and settled against it; and, of the servers the
    bridge stands between, the event stream of [src/remote/src/worker.js] and
    the calculator tool of the worker and of [src/local/server.js].

    Conventions.
    - A JavaScript string is the list of its UTF-16 code units ([jsstring]).
    - A [Buffer] or [Uint8Array] is a [list byte].
    - The Node runtime functions the program calls ([Buffer#toString],
      [TextDecoder#decode], [String#trim], [String#split], ...) are modelled
      next to the program; the three that reach outside the process or are
      too large to restate ([fetch] for the POST, [new URL(..).origin],
      [JSON.parse]) are fields of a [runtime] record that every definition
      takes as a section variable.
    - Two machines. In [step] every activation of the stdin handler runs to
      its end before the next input is taken: the schedule in which every
      POST is settled before anything else happens. In [overlap_step] an
      activation is suspended at its [fetch] and goes on when the POST is
      settled, while other chunks and SSE reads are handled: every schedule.
      The bodies posted and their order are the same in both, and [step] is
      [overlap_step] on that one schedule; both facts are proved below. The
      stdin handler of the earlier variant has its two machines likewise. *)

From Stdlib Require Import List NArith ZArith Bool Lia PeanoNat Wf_nat Permutation.
From Stdlib.Strings Require Import Ascii String Byte.
From Stdlib Require Import DecimalString.
Import ListNotations.

Local Open Scope N_scope.
Local Open Scope list_scope.

(** ** JavaScript strings *)

Definition jsstring := list N.

(** An ASCII literal as a JavaScript string. *)
Definition js (s : string) : jsstring :=
  List.map N_of_ascii (list_ascii_of_string s).

Definition NL : N := 10.
Definition CR : N := 13.
Definition REPLACEMENT : N := 0xFFFD.

Definition jsstring_eqb (a b : jsstring) : bool :=
  if list_eq_dec N.eq_dec a b then true else false.

(** A string is truthy when it is not empty. *)
Definition truthy (s : jsstring) : bool :=
  match s with [] => false | _ :: _ => true end.

(** [s.indexOf(c)] for a one-unit needle; [None] stands for [-1]. *)
Fixpoint indexOf (c : N) (s : jsstring) : option nat :=
  match s with
  | [] => None
  | x :: s' => if x =? c then Some 0%nat else option_map S (indexOf c s')
  end.

(** [s.slice(0, i)] and [s.slice(i)] for an index within the string. *)
Definition slice_to (i : nat) (s : jsstring) : jsstring := firstn i s.
Definition slice_from (i : nat) (s : jsstring) : jsstring := skipn i s.

Fixpoint startsWith (p s : jsstring) : bool :=
  match p, s with
  | [], _ => true
  | _ :: _, [] => false
  | a :: p', b :: s' => (a =? b) && startsWith p' s'
  end.

(** White space and line terminators, as [String.prototype.trim] sees them. *)
Definition is_ws (c : N) : bool :=
  (c =? 9) || (c =? 10) || (c =? 11) || (c =? 12) || (c =? 13) || (c =? 32)
  || (c =? 0xA0) || (c =? 0x1680) || ((0x2000 <=? c) && (c <=? 0x200A))
  || (c =? 0x2028) || (c =? 0x2029) || (c =? 0x202F) || (c =? 0x205F)
  || (c =? 0x3000) || (c =? 0xFEFF).

Fixpoint trimStart (s : jsstring) : jsstring :=
  match s with
  | [] => []
  | c :: s' => if is_ws c then trimStart s' else s
  end.

Definition trimEnd (s : jsstring) : jsstring := rev (trimStart (rev s)).

Definition trim (s : jsstring) : jsstring := trimEnd (trimStart s).

(** Puts a unit in front of the first piece of a split. *)
Definition cons_head (x : N) (ps : list jsstring) : list jsstring :=
  match ps with
  | [] => [[x]]
  | p :: ps' => (x :: p) :: ps'
  end.

(** [s.split(c)] for a one-unit separator: never empty, and one piece more
    than there are separators. *)
Fixpoint split_on (c : N) (s : jsstring) : list jsstring :=
  match s with
  | [] => [[]]
  | x :: s' => if x =? c then [] :: split_on c s'
               else cons_head x (split_on c s')
  end.

(** [s.split('\n\n')]: the separator is matched from the left, and matches do
    not overlap. *)
Fixpoint split_blank (s : jsstring) : list jsstring :=
  match s with
  | [] => [[]]
  | x :: s' =>
      match s' with
      | y :: s'' =>
          if (x =? NL) && (y =? NL) then [] :: split_blank s''
          else cons_head x (split_blank s')
      | [] => cons_head x (split_blank s')
      end
  end.

(** [a.pop()] on a non-empty array: the last element, and the array without
    it. *)
Definition pop (ps : list jsstring) : jsstring * list jsstring :=
  (last ps [], removelast ps).

(** ** UTF-8 decoding

    The decoder of the Encoding Standard, one byte at a time. [Buffer#toString]
    runs it over one buffer and flushes; a [TextDecoder] called with
    [stream: true] keeps its state from one call to the next. *)

Record utf8_state := mk_utf8 {
  needed : N;      (* bytes the current sequence still consists of, 0 = none open *)
  seen : N;
  codepoint : N;
  lower : N;
  upper : N
}.

Definition utf8_init : utf8_state := mk_utf8 0 0 0 0x80 0xBF.

(** A code point as UTF-16 code units. *)
Definition code_units (c : N) : jsstring :=
  if c <? 0x10000 then [c]
  else [0xD800 + N.shiftr (c - 0x10000) 10; 0xDC00 + N.land (c - 0x10000) 0x3FF].

(** A byte read while no sequence is open. *)
Definition utf8_lead (b : N) : utf8_state * jsstring :=
  if b <=? 0x7F then (utf8_init, [b])
  else if (0xC2 <=? b) && (b <=? 0xDF) then
    (mk_utf8 1 0 (N.land b 0x1F) 0x80 0xBF, [])
  else if (0xE0 <=? b) && (b <=? 0xEF) then
    (mk_utf8 2 0 (N.land b 0xF)
       (if b =? 0xE0 then 0xA0 else 0x80) (if b =? 0xED then 0x9F else 0xBF), [])
  else if (0xF0 <=? b) && (b <=? 0xF4) then
    (mk_utf8 3 0 (N.land b 0x7)
       (if b =? 0xF0 then 0x90 else 0x80) (if b =? 0xF4 then 0x8F else 0xBF), [])
  else (utf8_init, [REPLACEMENT]).

Definition utf8_step (st : utf8_state) (b : N) : utf8_state * jsstring :=
  if needed st =? 0 then utf8_lead b
  else if (b <? lower st) || (upper st <? b) then
    (* the open sequence is broken off; the byte is read again *)
    let '(st', out) := utf8_lead b in (st', REPLACEMENT :: out)
  else
    let c := N.lor (N.shiftl (codepoint st) 6) (N.land b 0x3F) in
    if seen st + 1 =? needed st then (utf8_init, code_units c)
    else (mk_utf8 (needed st) (seen st + 1) c 0x80 0xBF, []).

Fixpoint utf8_run (st : utf8_state) (bs : list byte) : utf8_state * jsstring :=
  match bs with
  | [] => (st, [])
  | b :: bs' =>
      let '(st1, out1) := utf8_step st (Byte.to_N b) in
      let '(st2, out2) := utf8_run st1 bs' in
      (st2, out1 ++ out2)
  end.

(** End of input with a sequence still open. *)
Definition utf8_flush (st : utf8_state) : jsstring :=
  if needed st =? 0 then [] else [REPLACEMENT].

(** [chunk.toString()] on a [Buffer]: each buffer is decoded on its own. *)
Definition Buffer_toString (chunk : list byte) : jsstring :=
  let '(st, out) := utf8_run utf8_init chunk in out ++ utf8_flush st.

(** [new TextDecoder()]: UTF-8, not fatal, a leading byte order mark is
    dropped. *)
Record TextDecoder := mk_decoder {
  dec_utf8 : utf8_state;
  dec_bom_seen : bool
}.

Definition new_TextDecoder : TextDecoder := mk_decoder utf8_init false.

Definition strip_bom (bom_seen : bool) (out : jsstring) : bool * jsstring :=
  if bom_seen then (true, out)
  else match out with
       | [] => (false, [])
       | c :: out' => (true, if c =? 0xFEFF then out' else out)
       end.

(** [decoder.decode(value, { stream: true })]. *)
Definition decode_stream (d : TextDecoder) (value : list byte)
  : TextDecoder * jsstring :=
  let '(st, out) := utf8_run (dec_utf8 d) value in
  let '(seen', out') := strip_bom (dec_bom_seen d) out in
  (mk_decoder st seen', out').

(** ** JSON values, as far as the bridge looks into them *)

#[local] Set Warnings "-register-all".
Inductive json :=
| JNull
| JBool (b : bool)
| JNumber (literal : jsstring)
| JString (s : jsstring)
| JArray (items : list json)
| JObject (fields : list (jsstring * json)).

(** What reading a property gives: [null.method] throws a [TypeError]. *)
Inductive prop_read :=
| PropThrows
| PropUndefined
| PropValue (v : json).

(** [msg.method]; for a key written twice [JSON.parse] keeps the last. *)
Definition get_method (msg : json) : prop_read :=
  match msg with
  | JNull => PropThrows
  | JObject fields =>
      match find (fun kv => jsstring_eqb (fst kv) (js "method")) (rev fields) with
      | Some kv => PropValue (snd kv)
      | None => PropUndefined
      end
  | _ => PropUndefined
  end.

(** [v === 'literal'] *)
Definition strict_eq_string (v : json) (lit : jsstring) : bool :=
  match v with
  | JString s => jsstring_eqb s lit
  | _ => false
  end.

(** ** The world outside the process *)

Inductive text_outcome :=
| Text (text : jsstring)               (* [await response.text()] *)
| TextRejects (message : jsstring).

Inductive post_outcome :=
| FetchRejects (message : jsstring)    (* [await fetch(..)] throws *)
| Responded (status : N) (body : text_outcome).

Record runtime := mk_runtime {
  (* the answer to the n-th POST of the process, sent to a URL with a body *)
  remote : nat -> jsstring -> jsstring -> post_outcome;
  (* [new URL(s).origin]; [None] when the constructor throws *)
  url_origin : jsstring -> option jsstring;
  (* [JSON.parse(s)]; [None] when it throws *)
  JSON_parse : jsstring -> option json
}.

(** What the process does to the outside, in the order it does it. *)
Inductive effect :=
| Post (url body : jsstring)   (* fetch(url, POST, Content-Type: application/json, body) *)
| Get (url : jsstring)         (* fetch(url, Accept: text/event-stream) *)
| Stdout (text : jsstring)     (* stdout.write(text) *)
| Stderr (text : jsstring)     (* console.error(text) *)
| SetTimeout (ms : N)          (* setTimeout(connectSSE, ms) *)
| Exit (code : N).             (* process.exit(code) *)

Definition trace := list effect.

Definition posted (tr : trace) : list jsstring :=
  flat_map (fun e => match e with Post _ body => [body] | _ => [] end) tr.

Definition post_targets (tr : trace) : list jsstring :=
  flat_map (fun e => match e with Post url _ => [url] | _ => [] end) tr.

Definition stdout_writes (tr : trace) : list jsstring :=
  flat_map (fun e => match e with Stdout t => [t] | _ => [] end) tr.

Definition stderr_writes (tr : trace) : list jsstring :=
  flat_map (fun e => match e with Stderr t => [t] | _ => [] end) tr.

Definition connection_attempts (tr : trace) : nat :=
  List.length (flat_map (fun e => match e with Get _ => [e] | _ => [] end) tr).

(** ** State of the process *)

(** Where [connectSSE] stands. [Returned]: the call ended without throwing,
    and nothing was scheduled. *)
Inductive sse_phase :=
| Connecting
| Streaming (decoder : TextDecoder) (sseBuffer : jsstring)
| Waiting
| Returned.

Record bridge := mk_bridge {
  sseUrl : jsstring;        (* line 16, never assigned again *)
  postUrl : jsstring;       (* line 25, assigned by endpoint events *)
  inputBuffer : jsstring;   (* line 34 *)
  posts_made : nat;         (* not in the script: counts the POSTs, for [remote] *)
  sse : sse_phase           (* the call of [connectSSE] and its local variables *)
}.

Definition set_postUrl (b : bridge) (u : jsstring) : bridge :=
  mk_bridge (sseUrl b) u (inputBuffer b) (posts_made b) (sse b).

Definition set_inputBuffer (b : bridge) (s : jsstring) : bridge :=
  mk_bridge (sseUrl b) (postUrl b) s (posts_made b) (sse b).

Definition set_sse (b : bridge) (p : sse_phase) : bridge :=
  mk_bridge (sseUrl b) (postUrl b) (inputBuffer b) (posts_made b) p.

Definition count_post (b : bridge) : bridge :=
  mk_bridge (sseUrl b) (postUrl b) (inputBuffer b) (S (posts_made b)) (sse b).

(** A loop body run over the elements of an array, effects in order. *)
Fixpoint for_each {A S : Type} (body : A -> S -> trace * S) (xs : list A) (s : S)
  : trace * S :=
  match xs with
  | [] => ([], s)
  | x :: xs' =>
      let '(tr1, s1) := body x s in
      let '(tr2, s2) := for_each body xs' s1 in
      (tr1 ++ tr2, s2)
  end.

(** ** Startup (proxy.js, lines 16-25) *)

Definition endsWith (suffix s : jsstring) : bool :=
  startsWith (rev suffix) (rev s).

(** [sseUrl.replace(/\/sse$/, '/mcp')] *)
Definition replace_sse_suffix (u : jsstring) : jsstring :=
  if endsWith (js "/sse") u
  then slice_to (List.length u - 4) u ++ js "/mcp"
  else u.

Definition usage : jsstring := js "Usage: node proxy.js <sse-url>".

(** [process.argv[i]]; [None] stands for [undefined]. *)
Definition argv_at (argv : list jsstring) (i : nat) : option jsstring :=
  nth_error argv i.

(** The top level of the script up to its last line, [connectSSE()];
    [None]: the process has exited. *)
Definition startup (argv : list jsstring) : trace * option bridge :=
  match argv_at argv 2 with
  | Some u =>
      if truthy u
      then ([Get u], Some (mk_bridge u (replace_sse_suffix u) [] 0 Connecting))
      else ([Stderr usage; Exit 1], None)
  | None => ([Stderr usage; Exit 1], None)
  end.

Section Bridge.

Variable rt : runtime.

(** ** The stdin handler (proxy.js, lines 37-70) *)

(** Lines 47-67: one POST, its answer relayed, a failure logged. *)
Definition forward_line (line : jsstring) (b : bridge) : trace * bridge :=
  let sent := Post (postUrl b) line in
  let failed m := Stderr (js "[Proxy] Error forwarding request: " ++ m) in
  match remote rt (posts_made b) (postUrl b) line with
  | FetchRejects m => ([sent; failed m], count_post b)
  | Responded _ (TextRejects m) => ([sent; failed m], count_post b)
  | Responded _ (Text text) =>
      (sent :: (if truthy text && truthy (trim text)
                then [Stdout (text ++ [NL])] else []),
       count_post b)
  end.

(** Line 46: [if (line.trim()) { ... }] *)
Definition send_if_nonblank (line : jsstring) (b : bridge) : trace * bridge :=
  if truthy (trim line) then forward_line line b else ([], b).

(** Lines 42-69: the [while] loop, at most [fuel] turns. *)
Fixpoint stdin_loop (fuel : nat) (b : bridge) : trace * bridge :=
  match fuel with
  | O => ([], b)
  | S fuel' =>
      match indexOf NL (inputBuffer b) with
      | None => ([], b)
      | Some newlineIndex =>
          let line := slice_to newlineIndex (inputBuffer b) in
          let b1 := set_inputBuffer b (slice_from (newlineIndex + 1) (inputBuffer b)) in
          let '(tr1, b2) := send_if_nonblank line b1 in
          let '(tr2, b3) := stdin_loop fuel' b2 in
          (tr1 ++ tr2, b3)
      end
  end.

(** Every turn takes at least one unit off the buffer. *)
Definition on_stdin_data (chunk : list byte) (b : bridge) : trace * bridge :=
  let b1 := set_inputBuffer b (inputBuffer b ++ Buffer_toString chunk) in
  stdin_loop (S (List.length (inputBuffer b1))) b1.

(** ** The stdin handler of the earlier variant (part_000, lines 25-51) *)

Definition legacy_on_stdin_data (chunk : list byte) (b : bridge) : trace * bridge :=
  let data := Buffer_toString chunk in
  for_each send_if_nonblank (split_on NL data) b.

(** ** The SSE reader (proxy.js, lines 73-152) *)

Inductive sse_line :=
| EventLine (eventName : jsstring)
| DataLine (dataStr : jsstring)
| OtherLine.

(** Lines 105-111: what a line of an event block is. *)
Definition classify (line : jsstring) : sse_line :=
  if startsWith (js "event: ") line then EventLine (trim (slice_from 7 line))
  else if startsWith (js "data: ") line then DataLine (slice_from 6 line)
  else OtherLine.

(** Lines 117-124; [None] when [new URL(sseUrl)] throws. *)
Definition endpoint_target (sse_url dataStr : jsstring) : option jsstring :=
  if startsWith (js "http") dataStr then Some dataStr
  else if startsWith (js "/") dataStr then
    match url_origin rt sse_url with
    | Some baseUrl => Some (baseUrl ++ dataStr)
    | None => None
    end
  else Some dataStr.

Definition suppressed_method (v : json) : bool :=
  strict_eq_string v (js "connection/ready")
  || strict_eq_string v (js "server/capabilities").

(** Lines 131-143. *)
Definition relay (dataStr : jsstring) : trace :=
  let write := [Stdout (dataStr ++ [NL])] in
  match JSON_parse rt dataStr with
  | None => write
  | Some msg =>
      match get_method msg with
      | PropThrows => write
      | PropUndefined => write
      | PropValue v => if suppressed_method v then [] else write
      end
  end.

(** The body of the loop over the lines of one event block; the state is
    [isEndpointEvent] and the bridge. *)
Definition on_sse_line (line : jsstring) (s : bool * bridge) : trace * (bool * bridge) :=
  let '(isEndpointEvent, b) := s in
  match classify line with
  | EventLine eventName =>
      if jsstring_eqb eventName (js "endpoint") then ([], (true, b)) else ([], s)
  | DataLine dataStr =>
      if isEndpointEvent then
        match endpoint_target (sseUrl b) dataStr with
        | Some u => ([], (false, set_postUrl b u))
        | None => (relay dataStr, s)      (* caught at line 128, falls through *)
        end
      else (relay dataStr, s)
  | OtherLine => ([], s)
  end.

(** Lines 100-146, for one event block. *)
Definition on_sse_event (event : jsstring) (b : bridge) : trace * bridge :=
  let '(tr, s) := for_each on_sse_line (split_on NL event) (false, b) in
  (tr, snd s).

(** Lines 94-98: the blocks that are complete, and the rest that is kept. *)
Definition frame_events (d : TextDecoder) (sseBuffer : jsstring) (value : list byte)
  : list jsstring * (TextDecoder * jsstring) :=
  let '(d', chunk) := decode_stream d value in
  let '(rest, events) := pop (split_blank (sseBuffer ++ chunk)) in
  (events, (d', rest)).

Definition on_sse_read (d : TextDecoder) (sseBuffer : jsstring) (value : list byte)
  (b : bridge) : trace * bridge :=
  let '(events, (d', rest)) := frame_events d sseBuffer value in
  let '(tr, b') := for_each on_sse_event events b in
  (tr, set_sse b' (Streaming d' rest)).

(** Lines 148-151. *)
Definition sse_failed (message : jsstring) (b : bridge) : trace * bridge :=
  ([Stderr (js "[Proxy] SSE Error: " ++ message); SetTimeout 5000], set_sse b Waiting).

Definition decimal (n : N) : jsstring :=
  js (NilEmpty.string_of_uint (N.to_uint n)).

(** ** The process as a machine *)

(** [response.body]: a stream, or [null], as it is for a response with status
    204 or 205; reading [getReader] of [null] throws a [TypeError], with the
    message the engine gives it. *)
Inductive response_body :=
| BodyStream
| BodyNull (message : jsstring).

Inductive input :=
| StdinData (chunk : list byte)                       (* stdin 'data' *)
| SseResponded (ok : bool) (status : N) (statusText : jsstring) (body : response_body)
| SseFetchRejected (message : jsstring)
| SseRead (value : list byte)                         (* reader.read(): a value *)
| SseDone                                             (* reader.read(): done *)
| SseReadRejected (message : jsstring)
| TimerFired.

(** One input, handled to the end: for a chunk of stdin, the activation of
    the handler with every POST it makes settled at once, as [remote] says.
    Activations that overlap are the matter of [overlap_step], further
    down. *)
Definition step (i : input) (b : bridge) : trace * bridge :=
  match i, sse b with
  | StdinData chunk, _ => on_stdin_data chunk b
  | SseResponded ok status statusText body, Connecting =>
      if ok then
        match body with
        | BodyStream => ([], set_sse b (Streaming new_TextDecoder []))
        | BodyNull m => sse_failed m b         (* line 86 throws *)
        end
      else sse_failed (js "SSE connection failed: " ++ decimal status
                          ++ js " " ++ statusText) b
  | SseFetchRejected m, Connecting => sse_failed m b
  | SseRead value, Streaming d buf => on_sse_read d buf value b
  | SseDone, Streaming _ _ => ([], set_sse b Returned)
  | SseReadRejected m, Streaming _ _ => sse_failed m b
  | TimerFired, Waiting => ([Get (sseUrl b)], set_sse b Connecting)
  | _, _ => ([], b)               (* not an input of this phase *)
  end.

Definition run (inputs : list input) (b : bridge) : trace * bridge :=
  for_each step inputs b.

End Bridge.

(** ** Vocabulary of the properties *)

(** A text either holds no separator, or is a first piece, the separator, and
    the text the split goes on with. *)
Definition splits_by (sp : jsstring -> list jsstring) (sep : jsstring) : Prop :=
  forall s,
    sp s = [s] \/
    exists l r, s = l ++ sep ++ r /\ (List.length r < List.length s)%nat /\
                forall x, sp (l ++ sep ++ x) = l :: sp x.

Section Framing.

Variable sp : jsstring -> list jsstring.

(** The complete pieces of a buffer and the piece still open: what [pop]
    leaves in the array and what it returns. *)
Definition complete (s : jsstring) : list jsstring := removelast (sp s).
Definition partial (s : jsstring) : jsstring := last (sp s) [].

End Framing.

(** The newline-terminated segments of a text, and the segment after the last
    newline. *)
Definition segments : jsstring -> list jsstring := complete (split_on NL).
Definition open_segment : jsstring -> jsstring := partial (split_on NL).

(** The event blocks of a text that a blank line closes, and the block still
    open. *)
Definition blocks : jsstring -> list jsstring := complete split_blank.
Definition open_block : jsstring -> jsstring := partial split_blank.

Definition nonblank (line : jsstring) : bool := truthy (trim line).

(** The chunk ends where a UTF-8 sequence ends: decoding it on its own leaves
    no sequence open. *)
Definition ends_on_boundary (chunk : list byte) : bool :=
  needed (fst (utf8_run utf8_init chunk)) =? 0.

(** The reads of one connection, one after the other: the event blocks each
    read completes, and the decoder and buffer the last one leaves. *)
Fixpoint read_all (d : TextDecoder) (sseBuffer : jsstring) (values : list (list byte))
  : list jsstring * (TextDecoder * jsstring) :=
  match values with
  | [] => ([], (d, sseBuffer))
  | v :: vs =>
      let '(events, (d', rest)) := frame_events d sseBuffer v in
      let '(more, final) := read_all d' rest vs in
      (events ++ more, final)
  end.

(** A block as the event stream format writes it: no blank line inside, no
    newline at its end. *)
Fixpoint block_like (e : jsstring) : bool :=
  match e with
  | [] => true
  | x :: e' =>
      match e' with
      | [] => negb (x =? NL)
      | y :: _ => negb ((x =? NL) && (y =? NL)) && block_like e'
      end
  end.

(** The payloads of the data lines of a block. *)
Definition data_payloads (event : jsstring) : list jsstring :=
  flat_map (fun line => match classify line with DataLine d => [d] | _ => [] end)
           (split_on NL event).

(** The block has a line naming the event [endpoint]. *)
Definition names_endpoint (event : jsstring) : bool :=
  existsb (fun line => match classify line with
                       | EventLine n => jsstring_eqb n (js "endpoint")
                       | _ => false
                       end)
          (split_on NL event).

(** The payload parses as JSON and its [method] is one of the two
    notifications that are not passed on. *)
Definition is_suppressed (rt : runtime) (dataStr : jsstring) : bool :=
  match JSON_parse rt dataStr with
  | Some msg =>
      match get_method msg with
      | PropValue (JString m) =>
          jsstring_eqb m (js "connection/ready")
          || jsstring_eqb m (js "server/capabilities")
      | _ => false
      end
  | None => false
  end.


(** The trace only writes to standard output. *)
Definition only_stdout (tr : trace) : Prop := tr = List.map Stdout (stdout_writes tr).

(** The ways the SSE side fails: the connection attempt is answered with a
    status that is not a success, or with a success that has no body, the
    connection attempt throws, or a read of the open stream throws. *)
Inductive sse_failure : sse_phase -> input -> Prop :=
| failed_status status statusText body :
    sse_failure Connecting (SseResponded false status statusText body)
| failed_no_body status statusText message :
    sse_failure Connecting (SseResponded true status statusText (BodyNull message))
| failed_fetch message :
    sse_failure Connecting (SseFetchRejected message)
| failed_read d buf message :
    sse_failure (Streaming d buf) (SseReadRejected message).

(** The message of the error thrown on such a failure. *)
Definition failure_message (i : input) : jsstring :=
  match i with
  | SseResponded false status statusText _ =>
      js "SSE connection failed: " ++ decimal status ++ js " " ++ statusText
  | SseResponded true _ _ (BodyNull message) => message
  | SseFetchRejected message => message
  | SseReadRejected message => message
  | _ => []
  end.

(** The input is a read that completes a block naming the endpoint event. *)
Definition retargets (i : input) (b : bridge) : bool :=
  match i, sse b with
  | SseRead value, Streaming d buf =>
      existsb names_endpoint (fst (frame_events d buf value))
  | _, _ => false
  end.

(** No input of the run retargets the POSTs. *)
Fixpoint never_retargeted (rt : runtime) (inputs : list input) (b : bridge) : bool :=
  match inputs with
  | [] => true
  | i :: inputs' =>
      negb (retargets i b) && never_retargeted rt inputs' (snd (step rt i b))
  end.

(** The earlier variant, chunk after chunk, each activation at its end before
    the next chunk is delivered. *)
Definition legacy_run (rt : runtime) (chunks : list (list byte)) (b : bridge)
  : trace * bridge :=
  for_each (legacy_on_stdin_data rt) chunks b.

(** ** A sample world, for the examples *)

Definition sample_origin : jsstring := js "https://demo.workers.dev".

(** The remote echoes every body; no payload parses as JSON. *)
Definition echo_runtime : runtime :=
  mk_runtime (fun _ _ body => Responded 200 (Text body))
             (fun _ => Some sample_origin)
             (fun _ => None).


(** The text of an object whose only member is the method
    [connection/ready], and a [JSON.parse] that knows this one text. *)
Definition ready_payload : jsstring :=
  [123; 34] ++ js "method" ++ [34; 58; 34] ++ js "connection/ready" ++ [34; 125].

Definition ready_runtime : runtime :=
  mk_runtime (fun _ _ body => Responded 200 (Text body))
             (fun _ => Some sample_origin)
             (fun s => if jsstring_eqb s ready_payload
                       then Some (JObject [(js "method", JString (js "connection/ready"))])
                       else None).


Definition sample_bridge : bridge :=
  mk_bridge (sample_origin ++ js "/sse") (sample_origin ++ js "/mcp") [] 0 Connecting.

Definition sample_streaming : bridge :=
  set_sse sample_bridge (Streaming new_TextDecoder []).

(** * More of the repository *)

(** ** The SSE reader of the earlier variant (part_000, lines 54-96)

    The same framing as in proxy.js; every data line is written, there is no
    endpoint event and no suppressed notification. *)

(** Lines 82-89, for one event block. *)
Definition legacy_on_sse_event (event : jsstring) : trace :=
  flat_map (fun line =>
              if startsWith (js "data: ") line
              then [Stdout (slice_from 6 line ++ [NL])]
              else [])
           (split_on NL event).

(** Lines 75-90, for one read. *)
Definition legacy_on_sse_read (d : TextDecoder) (sseBuffer : jsstring)
  (value : list byte) : trace * (TextDecoder * jsstring) :=
  let '(events, kept) := frame_events d sseBuffer value in
  (flat_map legacy_on_sse_event events, kept).

(** ** Activations of the stdin handler that overlap (proxy.js, lines 37-70)

    The handler is an [async] function. An activation runs until it calls
    [fetch] (line 50), and is taken up again when the POST is settled: the
    [fetch] is rejected, or the text of the response is there, or reading it
    is rejected (line 59). In between, other chunks are delivered and other
    activations run, all of them on the one [inputBuffer], and the SSE reader
    handles its reads. *)

(** Lines 42-46: the turns of the loop up to the first line that is sent;
    that line, if there is one, and the buffer these turns leave. *)
Fixpoint next_line (fuel : nat) (buffer : jsstring) : option jsstring * jsstring :=
  match fuel with
  | O => (None, buffer)
  | S fuel' =>
      match indexOf NL buffer with
      | None => (None, buffer)
      | Some newlineIndex =>
          let line := slice_to newlineIndex buffer in
          let rest := slice_from (newlineIndex + 1) buffer in
          if truthy (trim line) then (Some line, rest) else next_line fuel' rest
      end
  end.

Record process := mk_process {
  state : bridge;           (* the variables of the script *)
  in_flight : list nat      (* the POSTs suspended activations wait for, by number *)
}.

(** An activation enters the loop, or goes on in it: up to its next [fetch],
    where it is suspended, or to the end of the loop. *)
Definition enter_loop (b : bridge) (awaited : list nat) : trace * process :=
  match next_line (S (List.length (inputBuffer b))) (inputBuffer b) with
  | (Some line, rest) =>
      ([Post (postUrl b) line],
       mk_process (count_post (set_inputBuffer b rest)) (awaited ++ [posts_made b]))
  | (None, rest) => ([], mk_process (set_inputBuffer b rest) awaited)
  end.

(** Lines 56-67: what an activation does first when its POST is settled. *)
Definition on_post_settled (outcome : post_outcome) : trace :=
  let failed m := [Stderr (js "[Proxy] Error forwarding request: " ++ m)] in
  match outcome with
  | FetchRejects m => failed m
  | Responded _ (TextRejects m) => failed m
  | Responded _ (Text text) =>
      if truthy text && truthy (trim text) then [Stdout (text ++ [NL])] else []
  end.

Inductive event :=
| Arrives (i : input)
| PostSettled (n : nat) (outcome : post_outcome).

Definition overlap_step (rt : runtime) (e : event) (p : process) : trace * process :=
  match e with
  | Arrives (StdinData chunk) =>
      let b := state p in
      enter_loop (set_inputBuffer b (inputBuffer b ++ Buffer_toString chunk)) (in_flight p)
  | Arrives i =>
      let '(tr, b') := step rt i (state p) in (tr, mk_process b' (in_flight p))
  | PostSettled n outcome =>
      if existsb (Nat.eqb n) (in_flight p) then
        let '(tr, p') := enter_loop (state p) (remove Nat.eq_dec n (in_flight p)) in
        (on_post_settled outcome ++ tr, p')
      else ([], p)             (* no activation waits for it *)
  end.

Definition overlap_run (rt : runtime) (events : list event) (p : process)
  : trace * process :=
  for_each (overlap_step rt) events p.

(** The text of the chunks among the events. *)
Definition received (events : list event) : jsstring :=
  List.concat
    (List.map (fun e => match e with
                        | Arrives (StdinData chunk) => Buffer_toString chunk
                        | _ => []
                        end) events).

Definition chunks_of (events : list event) : list (list byte) :=
  flat_map (fun e => match e with Arrives (StdinData chunk) => [chunk] | _ => [] end)
           events.

(** The schedule of [step]: the POST of every line is settled at once, with
    the outcome that [remote] gives it. *)
Fixpoint settled_at_once (rt : runtime) (lines : list jsstring) (b : bridge)
  : list event :=
  match lines with
  | [] => []
  | line :: lines' =>
      if truthy (trim line)
      then PostSettled (posts_made b) (remote rt (posts_made b) (postUrl b) line)
             :: settled_at_once rt lines' (count_post b)
      else settled_at_once rt lines' b
  end.

Definition chunk_at_once (rt : runtime) (chunk : list byte) (b : bridge) : list event :=
  Arrives (StdinData chunk)
    :: settled_at_once rt (segments (inputBuffer b ++ Buffer_toString chunk)) b.

(** ** The same for the earlier variant (part_000, lines 25-51)

    Every activation has its own [lines] array, and goes through it whatever
    the other activations do. *)

(** Lines 29-30: the turns of the loop up to the first line that is sent;
    that line and the lines after it. *)
Fixpoint legacy_next_line (lines : list jsstring) : option (jsstring * list jsstring) :=
  match lines with
  | [] => None
  | line :: lines' =>
      if truthy (trim line) then Some (line, lines') else legacy_next_line lines'
  end.

Record legacy_process := mk_legacy_process {
  legacy_state : bridge;
  (* the suspended activations: the POST each waits for, and the lines it
     has still to go through *)
  legacy_waiting : list (nat * list jsstring)
}.

Definition legacy_enter_loop (lines : list jsstring) (b : bridge)
  (waiting : list (nat * list jsstring)) : trace * legacy_process :=
  match legacy_next_line lines with
  | Some (line, lines') =>
      ([Post (postUrl b) line],
       mk_legacy_process (count_post b) (waiting ++ [(posts_made b, lines')]))
  | None => ([], mk_legacy_process b waiting)
  end.

(** The activation that waits for a POST, taken out of the suspended ones. *)
Fixpoint take_waiting (n : nat) (waiting : list (nat * list jsstring))
  : option (list jsstring * list (nat * list jsstring)) :=
  match waiting with
  | [] => None
  | a :: waiting' =>
      if Nat.eqb (fst a) n then Some (snd a, waiting')
      else match take_waiting n waiting' with
           | Some (lines, others) => Some (lines, a :: others)
           | None => None
           end
  end.

Inductive legacy_event :=
| LegacyData (chunk : list byte)
| LegacyPostSettled (n : nat) (outcome : post_outcome).

Definition legacy_overlap_step (e : legacy_event) (p : legacy_process)
  : trace * legacy_process :=
  match e with
  | LegacyData chunk =>
      legacy_enter_loop (split_on NL (Buffer_toString chunk))
                        (legacy_state p) (legacy_waiting p)
  | LegacyPostSettled n outcome =>
      match take_waiting n (legacy_waiting p) with
      | Some (lines, others) =>
          let '(tr, p') := legacy_enter_loop lines (legacy_state p) others in
          (on_post_settled outcome ++ tr, p')
      | None => ([], p)        (* no activation waits for it *)
      end
  end.

Definition legacy_overlap_run (events : list legacy_event) (p : legacy_process)
  : trace * legacy_process :=
  for_each legacy_overlap_step events p.

(** The schedule of [legacy_on_stdin_data]: the POST of every line is
    settled at once, with the outcome that [remote] gives it. *)
Fixpoint legacy_settled_at_once (rt : runtime) (lines : list jsstring) (b : bridge)
  : list legacy_event :=
  match lines with
  | [] => []
  | line :: lines' =>
      if truthy (trim line)
      then LegacyPostSettled (posts_made b) (remote rt (posts_made b) (postUrl b) line)
             :: legacy_settled_at_once rt lines' (count_post b)
      else legacy_settled_at_once rt lines' b
  end.

Definition legacy_chunk_at_once (rt : runtime) (chunk : list byte) (b : bridge)
  : list legacy_event :=
  LegacyData chunk
    :: legacy_settled_at_once rt (split_on NL (Buffer_toString chunk)) b.

Definition legacy_chunks_of (events : list legacy_event) : list (list byte) :=
  flat_map (fun e => match e with LegacyData chunk => [chunk] | _ => [] end) events.

(** The lines the suspended activations have still to send. *)
Definition still_to_send (waiting : list (nat * list jsstring)) : list jsstring :=
  flat_map (fun a => filter nonblank (snd a)) waiting.

(** ** Vocabulary of the further properties *)

(** What the stdin handler does for one line it sends: the POST, and at most
    one line written, the answer or the error. *)
Inductive exchange : trace -> Prop :=
| exchange_silent url body :
    exchange [Post url body]
| exchange_answered url body text :
    exchange [Post url body; Stdout (text ++ [NL])]
| exchange_failed url body message :
    exchange [Post url body;
              Stderr (js "[Proxy] Error forwarding request: " ++ message)].

(** The input buffer holds a newline only while an activation is suspended,
    which takes the line when it goes on. *)
Definition quiet (p : process) : Prop :=
  in_flight p = [] -> indexOf NL (inputBuffer (state p)) = None.

(** The buffer of an open stream holds no blank line. *)
Definition sse_framed (b : bridge) : Prop :=
  match sse b with
  | Streaming _ sseBuffer => split_blank sseBuffer = [sseBuffer]
  | _ => True
  end.

(** No complete unit is left behind, in either buffer. *)
Definition well_framed (p : process) : Prop :=
  quiet p /\ sse_framed (state p).

Definition timers_set (tr : trace) : nat :=
  List.length (flat_map (fun e => match e with SetTimeout _ => [e] | _ => [] end) tr).


Definition is_ascii (b : byte) : bool := Byte.to_N b <? 0x80.

(** ** The event stream of the worker (worker.js, lines 274-313) *)

Definition is_high_surrogate (c : N) : bool := (0xD800 <=? c) && (c <=? 0xDBFF).
Definition is_low_surrogate (c : N) : bool := (0xDC00 <=? c) && (c <=? 0xDFFF).

Definition byte_of (n : N) : byte :=
  match Byte.of_N n with Some b => b | None => x00 end.

(** The UTF-8 bytes of a code point. *)
Definition utf8_bytes (c : N) : list byte :=
  if c <? 0x80 then [byte_of c]
  else if c <? 0x800 then
    [byte_of (N.lor 0xC0 (N.shiftr c 6)); byte_of (N.lor 0x80 (N.land c 0x3F))]
  else if c <? 0x10000 then
    [byte_of (N.lor 0xE0 (N.shiftr c 12));
     byte_of (N.lor 0x80 (N.land (N.shiftr c 6) 0x3F));
     byte_of (N.lor 0x80 (N.land c 0x3F))]
  else
    [byte_of (N.lor 0xF0 (N.shiftr c 18));
     byte_of (N.lor 0x80 (N.land (N.shiftr c 12) 0x3F));
     byte_of (N.lor 0x80 (N.land (N.shiftr c 6) 0x3F));
     byte_of (N.lor 0x80 (N.land c 0x3F))].

(** [new TextEncoder().encode(s)]: a surrogate pair is one code point, a
    surrogate outside a pair is encoded as U+FFFD. *)
Fixpoint TextEncoder_encode (s : jsstring) : list byte :=
  match s with
  | [] => []
  | c :: s' =>
      if is_high_surrogate c then
        match s' with
        | lo :: s'' =>
            if is_low_surrogate lo
            then utf8_bytes (0x10000 + N.shiftl (c - 0xD800) 10 + (lo - 0xDC00))
                   ++ TextEncoder_encode s''
            else utf8_bytes REPLACEMENT ++ TextEncoder_encode s'
        | [] => utf8_bytes REPLACEMENT
        end
      else if is_low_surrogate c then utf8_bytes REPLACEMENT ++ TextEncoder_encode s'
      else utf8_bytes c ++ TextEncoder_encode s'
  end.

(** Line 284: what [start] enqueues first; [origin] is [urlObj.origin] and
    [sessionId] is what [crypto.randomUUID()] returned. *)
Definition endpoint_url (origin sessionId : jsstring) : jsstring :=
  origin ++ js "/mcp?sessionId=" ++ sessionId.

Definition sse_greeting (origin sessionId : jsstring) : list byte :=
  TextEncoder_encode
    (js "event: endpoint" ++ [NL] ++ js "data: " ++ endpoint_url origin sessionId
       ++ [NL; NL]).

(** Line 289: what the interval enqueues every 15 seconds. *)
Definition sse_keepalive : list byte :=
  TextEncoder_encode (js ": keepalive" ++ [NL; NL]).

(** The bytes of the stream after [n] keep-alive periods. *)
Definition worker_sse_stream (origin sessionId : jsstring) (n : nat) : list byte :=
  sse_greeting origin sessionId ++ List.concat (repeat sse_keepalive n).

(** ** The calculator tool (worker.js, lines 156-166 and 181-183; local
    server.js, lines 223-254 and 294-304)

    For arguments of the types the input schema of the tool declares: the
    operation a string, [a] and [b] numbers. The numbers of JavaScript and
    their arithmetic are not modelled: they are the variables of the
    section. *)

Record tool_result := mk_tool_result {
  tool_text : jsstring;       (* content[0].text *)
  tool_isError : bool         (* isError: true, set by the catch block only *)
}.

Section Calculator.

Variable number : Type.
Variables plus minus times divided_by : number -> number -> number.
Variable is_zero : number -> bool.            (* [b === 0] *)
Variable show : number -> jsstring.           (* a number in a template literal *)

(** [`Result: ${a} ${operation} ${b} = ${result}`]; [None] is [undefined]. *)
Definition result_text (operation : jsstring) (a b : number) (result : option number)
  : jsstring :=
  js "Result: " ++ show a ++ js " " ++ operation ++ js " " ++ show b ++ js " = "
     ++ match result with Some r => show r | None => js "undefined" end.

(** The catch block of both servers. *)
Definition tool_error (message : jsstring) : tool_result :=
  mk_tool_result (js "Error: " ++ message) true.

(** worker.js, lines 157-166. *)
Definition remote_calculate (operation : jsstring) (a b : number) : tool_result :=
  if jsstring_eqb operation (js "add")
  then mk_tool_result (result_text operation a b (Some (plus a b))) false
  else if jsstring_eqb operation (js "subtract")
  then mk_tool_result (result_text operation a b (Some (minus a b))) false
  else if jsstring_eqb operation (js "multiply")
  then mk_tool_result (result_text operation a b (Some (times a b))) false
  else if jsstring_eqb operation (js "divide")
  then if is_zero b then tool_error (js "Division by zero")
       else mk_tool_result (result_text operation a b (Some (divided_by a b))) false
  else mk_tool_result (result_text operation a b None) false.

(** local/server.js, lines 224-254. *)
Definition local_calculate (operation : jsstring) (a b : number) : tool_result :=
  if jsstring_eqb operation (js "add")
  then mk_tool_result (result_text operation a b (Some (plus a b))) false
  else if jsstring_eqb operation (js "subtract")
  then mk_tool_result (result_text operation a b (Some (minus a b))) false
  else if jsstring_eqb operation (js "multiply")
  then mk_tool_result (result_text operation a b (Some (times a b))) false
  else if jsstring_eqb operation (js "divide")
  then if is_zero b then tool_error (js "Division by zero")
       else mk_tool_result (result_text operation a b (Some (divided_by a b))) false
  else tool_error (js "Unknown operation: " ++ operation).

End Calculator.

(** Numbers for the examples: the zeros, the infinities and [NaN]. The four
    operations of IEEE 754 do not lead out of them, so on these the
    arithmetic of JavaScript is a table. *)
Inductive special :=
| NaN
| Zero (negative : bool)
| Infinity (negative : bool).

Definition special_neg (x : special) : special :=
  match x with
  | NaN => NaN
  | Zero s => Zero (negb s)
  | Infinity s => Infinity (negb s)
  end.

Definition special_add (x y : special) : special :=
  match x, y with
  | NaN, _ => NaN
  | _, NaN => NaN
  | Infinity s, Infinity t => if Bool.eqb s t then Infinity s else NaN
  | Infinity s, Zero _ => Infinity s
  | Zero _, Infinity t => Infinity t
  | Zero s, Zero t => Zero (s && t)
  end.

Definition special_sub (x y : special) : special := special_add x (special_neg y).

Definition special_mul (x y : special) : special :=
  match x, y with
  | NaN, _ => NaN
  | _, NaN => NaN
  | Infinity _, Zero _ => NaN
  | Zero _, Infinity _ => NaN
  | Infinity s, Infinity t => Infinity (xorb s t)
  | Zero s, Zero t => Zero (xorb s t)
  end.

Definition special_div (x y : special) : special :=
  match x, y with
  | NaN, _ => NaN
  | _, NaN => NaN
  | Zero _, Zero _ => NaN
  | Infinity _, Infinity _ => NaN
  | Zero s, Infinity t => Zero (xorb s t)
  | Infinity s, Zero t => Infinity (xorb s t)
  end.

(** [x === 0]: true of both zeros. *)
Definition special_is_zero (x : special) : bool :=
  match x with Zero _ => true | _ => false end.

(** A number in a template literal: both zeros are written [0]. *)
Definition special_show (x : special) : jsstring :=
  match x with
  | NaN => js "NaN"
  | Zero _ => js "0"
  | Infinity false => js "Infinity"
  | Infinity true => js "-Infinity"
  end.

Definition sample_calculate_remote : jsstring -> special -> special -> tool_result :=
  remote_calculate special special_add special_sub special_mul special_div
                   special_is_zero special_show.

Definition sample_calculate_local : jsstring -> special -> special -> tool_result :=
  local_calculate special special_add special_sub special_mul special_div
                  special_is_zero special_show.

Definition ascii_text (s : jsstring) : bool := forallb (fun c => c <? 0x80) s.

(** ** Encoding and decoding *)

(** The string is well-formed UTF-16: 16-bit units, every high surrogate
    followed by a low one, no low surrogate elsewhere. *)
Fixpoint well_formed (s : jsstring) : bool :=
  match s with
  | [] => true
  | c :: s' =>
      if is_high_surrogate c then
        match s' with
        | lo :: s'' => is_low_surrogate lo && well_formed s''
        | [] => false
        end
      else negb (is_low_surrogate c) && (c <? 0x10000) && well_formed s'
  end.

(** The texts that a decoder returns for the reads of a stream, one after
    the other, put together. *)
Fixpoint decode_reads (d : TextDecoder) (values : list (list byte))
  : TextDecoder * jsstring :=
  match values with
  | [] => (d, [])
  | v :: vs =>
      let '(d1, chunk) := decode_stream d v in
      let '(d2, text) := decode_reads d1 vs in
      (d2, chunk ++ text)
  end.

(** * Properties *)

(** ** Splitting and framing *)

Lemma cons_head_cons x p ps : cons_head x (p :: ps) = (x :: p) :: ps.
Proof. reflexivity. Qed.

Lemma indexOf_None_cons c x s :
  indexOf c (x :: s) = None <-> x <> c /\ indexOf c s = None.
Proof.
  simpl. destruct (N.eqb_spec x c) as [->|Hne].
  - split; [discriminate | intros [H _]; now elim H].
  - destruct (indexOf c s); simpl; split; try discriminate; intuition discriminate.
Qed.

Lemma indexOf_None_app c s t :
  indexOf c (s ++ t) = None <-> indexOf c s = None /\ indexOf c t = None.
Proof.
  induction s as [|x s IH]; simpl app.
  - simpl; intuition.
  - rewrite !indexOf_None_cons, IH. tauto.
Qed.

Lemma indexOf_None_In c s : indexOf c s = None <-> ~ In c s.
Proof.
  induction s as [|x s IH].
  - simpl; intuition.
  - rewrite indexOf_None_cons, IH. simpl. intuition congruence.
Qed.

(** Where [indexOf] finds the unit, the two slices of the loop are the text
    before it and the text after it. *)
Lemma indexOf_Some c s i :
  indexOf c s = Some i ->
  indexOf c (slice_to i s) = None /\
  s = slice_to i s ++ c :: slice_from (i + 1) s.
Proof.
  unfold slice_to, slice_from. revert i.
  induction s as [|x s IH]; intros i H; [discriminate|].
  simpl in H. destruct (N.eqb_spec x c) as [->|Hne].
  - injection H as <-. simpl. auto.
  - destruct (indexOf c s) as [j|] eqn:E; [|discriminate].
    injection H as <-. destruct (IH j eq_refl) as [H1 H2].
    simpl. rewrite (proj2 (N.eqb_neq x c) Hne). simpl.
    rewrite H1. split; [reflexivity|]. f_equal. exact H2.
Qed.

Lemma indexOf_found c l t :
  indexOf c l = None -> indexOf c (l ++ c :: t) = Some (List.length l).
Proof.
  induction l as [|x l IH]; intros H.
  - simpl. now rewrite N.eqb_refl.
  - apply indexOf_None_cons in H as [Hne H]. simpl.
    rewrite (proj2 (N.eqb_neq x c) Hne), (IH H). reflexivity.
Qed.

Lemma split_on_whole c l : indexOf c l = None -> split_on c l = [l].
Proof.
  induction l as [|x l IH]; intros H; [reflexivity|].
  apply indexOf_None_cons in H as [Hne H]. simpl.
  rewrite (proj2 (N.eqb_neq x c) Hne), (IH H). reflexivity.
Qed.

Lemma split_on_first c l t :
  indexOf c l = None -> split_on c (l ++ c :: t) = l :: split_on c t.
Proof.
  induction l as [|x l IH]; intros H.
  - simpl. now rewrite N.eqb_refl.
  - apply indexOf_None_cons in H as [Hne H]. simpl.
    rewrite (proj2 (N.eqb_neq x c) Hne), (IH H). reflexivity.
Qed.

(** The pieces of [split_on] hold no separator. *)
Lemma split_on_pieces c s l : In l (split_on c s) -> indexOf c l = None.
Proof.
  revert l. induction s as [|x s IH]; intros l H.
  - simpl in H. destruct H as [<-|[]]. reflexivity.
  - simpl in H. destruct (N.eqb_spec x c) as [->|Hne].
    + destruct H as [<-|H]; [reflexivity | auto].
    + destruct (split_on c s) as [|p ps]; simpl in H.
      * destruct H as [<-|[]]. apply indexOf_None_cons. auto.
      * destruct H as [<-|H].
        -- apply indexOf_None_cons. split; [exact Hne | apply IH; now left].
        -- apply IH. now right.
Qed.

Lemma split_on_splits c : splits_by (split_on c) [c].
Proof.
  intros s. destruct (indexOf c s) as [i|] eqn:E.
  - right. destruct (indexOf_Some _ _ _ E) as [H1 H2].
    exists (slice_to i s), (slice_from (i + 1) s). split; [exact H2|]. split.
    + rewrite H2 at 2. rewrite length_app. simpl. lia.
    + intros x. simpl. now apply split_on_first.
  - left. now apply split_on_whole.
Qed.

Lemma split_blank_splits : splits_by split_blank [NL; NL].
Proof.
  intros s. induction s as [|x s IH]; [now left|].
  destruct s as [|y s'].
  - left. reflexivity.
  - destruct ((x =? NL) && (y =? NL)) eqn:E.
    + right. apply andb_true_iff in E as [Ex Ey].
      apply N.eqb_eq in Ex, Ey. subst x y.
      exists [], s'. split; [reflexivity|]. split; [simpl; lia|].
      intros z. reflexivity.
    + destruct IH as [IH | (l & r & Hs & Hlen & Hsp)].
      * left. change (split_blank (x :: y :: s'))
          with (if (x =? NL) && (y =? NL) then [] :: split_blank s'
                else cons_head x (split_blank (y :: s'))).
        rewrite E, IH. reflexivity.
      * right. exists (x :: l), r. split; [simpl; now rewrite Hs|].
        split; [simpl; simpl in Hlen; lia|].
        intros z. specialize (Hsp z).
        assert (Hy : exists u, l ++ [NL; NL] ++ z = y :: u).
        { destruct l as [|a l']; simpl in Hs |- *.
          - injection Hs as -> _. eauto.
          - injection Hs as -> _. eauto. }
        destruct Hy as [u Hu].
        change ((x :: l) ++ [NL; NL] ++ z) with (x :: (l ++ [NL; NL] ++ z)).
        rewrite Hu in *.
        change (split_blank (x :: y :: u))
          with (if (x =? NL) && (y =? NL) then [] :: split_blank u
                else cons_head x (split_blank (y :: u))).
        rewrite E, Hsp. reflexivity.
Qed.

Section FramingFacts.

Variable sp : jsstring -> list jsstring.
Variable sep : jsstring.
Hypothesis sp_splits : splits_by sp sep.

#[local] Abbreviation complete := (complete sp).
#[local] Abbreviation partial := (partial sp).

Lemma sp_nonempty s : sp s <> [].
Proof.
  destruct (sp_splits s) as [H | (l & r & -> & _ & H)].
  - now rewrite H.
  - now rewrite H.
Qed.

Lemma complete_partial_first l x :
  sp (l ++ sep ++ x) = l :: sp x ->
  complete (l ++ sep ++ x) = l :: complete x /\
  partial (l ++ sep ++ x) = partial x.
Proof.
  intros H. unfold complete, partial. rewrite H.
  pose proof (sp_nonempty x) as Hne.
  destruct (sp x) as [|p ps]; [now elim Hne|]. split; reflexivity.
Qed.

Lemma framing_app s t :
  complete (s ++ t) = complete s ++ complete (partial s ++ t) /\
  partial (s ++ t) = partial (partial s ++ t).
Proof.
  remember (List.length s) as n eqn:Hn. revert s Hn t.
  induction n as [n IH] using lt_wf_ind. intros s Hn t.
  destruct (sp_splits s) as [H | (l & r & Hs & Hlen & H)].
  - assert (Hc : complete s = []) by (unfold complete; now rewrite H).
    assert (Hp : partial s = s) by (unfold partial; now rewrite H).
    rewrite Hc, Hp. auto.
  - destruct (complete_partial_first l r (H r)) as [Hc Hp].
    destruct (complete_partial_first l (r ++ t) (H (r ++ t))) as [Hc' Hp'].
    assert (Hst : s ++ t = l ++ sep ++ (r ++ t)).
    { rewrite Hs. now rewrite <- !app_assoc. }
    rewrite Hst, Hc', Hp'. rewrite Hs, Hc, Hp.
    destruct (IH (List.length r) ltac:(lia) r eq_refl t) as [IHc IHp].
    rewrite IHc, IHp. auto.
Qed.

(** What is left open holds no separator. *)
Lemma partial_whole s : sp (partial s) = [partial s].
Proof.
  destruct (framing_app s []) as [Hc _]. rewrite !app_nil_r in Hc.
  assert (Hnil : complete (partial s) = []).
  { destruct (complete (partial s)); [reflexivity|].
    apply (f_equal (@List.length _)) in Hc. rewrite length_app in Hc.
    simpl in Hc. lia. }
  destruct (sp_splits (partial s)) as [H | (l & r & Hs & _ & H)]; [exact H|].
  rewrite Hs in Hnil.
  destruct (complete_partial_first l r (H r)) as [Hc2 _].
  rewrite Hc2 in Hnil. discriminate.
Qed.

End FramingFacts.

(** ** Traces *)

Lemma posted_app t1 t2 : posted (t1 ++ t2) = posted t1 ++ posted t2.
Proof. apply flat_map_app. Qed.

Lemma post_targets_app t1 t2 :
  post_targets (t1 ++ t2) = post_targets t1 ++ post_targets t2.
Proof. apply flat_map_app. Qed.

Lemma stdout_writes_app t1 t2 :
  stdout_writes (t1 ++ t2) = stdout_writes t1 ++ stdout_writes t2.
Proof. apply flat_map_app. Qed.

Lemma stderr_writes_app t1 t2 :
  stderr_writes (t1 ++ t2) = stderr_writes t1 ++ stderr_writes t2.
Proof. apply flat_map_app. Qed.

Lemma connection_attempts_app t1 t2 :
  connection_attempts (t1 ++ t2)
  = (connection_attempts t1 + connection_attempts t2)%nat.
Proof. unfold connection_attempts. now rewrite flat_map_app, length_app. Qed.

Lemma timers_set_app t1 t2 :
  timers_set (t1 ++ t2) = (timers_set t1 + timers_set t2)%nat.
Proof. unfold timers_set. now rewrite flat_map_app, length_app. Qed.

Lemma for_each_app {A S} (body : A -> S -> trace * S) xs ys s :
  for_each body (xs ++ ys) s =
  (fst (for_each body xs s) ++ fst (for_each body ys (snd (for_each body xs s))),
   snd (for_each body ys (snd (for_each body xs s)))).
Proof.
  revert s. induction xs as [|x xs IH]; intros s; simpl.
  - now destruct (for_each body ys s).
  - destruct (body x s) as [t1 s1]. rewrite IH.
    destruct (for_each body xs s1) as [t2 s2]. simpl.
    now rewrite app_assoc.
Qed.

Lemma for_each_cons {A S} (body : A -> S -> trace * S) x xs s :
  for_each body (x :: xs) s =
  (fst (body x s) ++ fst (for_each body xs (snd (body x s))),
   snd (for_each body xs (snd (body x s)))).
Proof.
  simpl. destruct (body x s) as [t1 s1]. simpl.
  now destruct (for_each body xs s1).
Qed.

(** ** The stdin handler *)

Section StdinFacts.

Variable rt : runtime.

Lemma forward_line_state line b : snd (forward_line rt line b) = count_post b.
Proof.
  unfold forward_line.
  destruct (remote rt (posts_made b) (postUrl b) line) as [m|st [text|m]];
    reflexivity.
Qed.

Lemma forward_line_posted line b : posted (fst (forward_line rt line b)) = [line].
Proof.
  unfold forward_line.
  destruct (remote rt (posts_made b) (postUrl b) line) as [m|st [text|m]];
    try reflexivity.
  simpl. now destruct (truthy text && truthy (trim text)).
Qed.

Lemma forward_line_targets line b :
  post_targets (fst (forward_line rt line b)) = [postUrl b].
Proof.
  unfold forward_line.
  destruct (remote rt (posts_made b) (postUrl b) line) as [m|st [text|m]];
    try reflexivity.
  simpl. now destruct (truthy text && truthy (trim text)).
Qed.

(** The sender does not look at the input buffer. *)
Lemma send_if_nonblank_buffer line b s :
  send_if_nonblank rt line (set_inputBuffer b s) =
  (fst (send_if_nonblank rt line b), set_inputBuffer (snd (send_if_nonblank rt line b)) s).
Proof.
  unfold send_if_nonblank. destruct (truthy (trim line)); [|reflexivity].
  unfold forward_line. simpl.
  destruct (remote rt (posts_made b) (postUrl b) line) as [m|st [text|m]];
    reflexivity.
Qed.

Lemma sends_buffer lines : forall b s,
  for_each (send_if_nonblank rt) lines (set_inputBuffer b s) =
  (fst (for_each (send_if_nonblank rt) lines b),
   set_inputBuffer (snd (for_each (send_if_nonblank rt) lines b)) s).
Proof.
  induction lines as [|l ls IH]; intros b s.
  - reflexivity.
  - rewrite !for_each_cons, send_if_nonblank_buffer. simpl.
    now rewrite IH.
Qed.

(** What the sender leaves of the bridge: only the count of POSTs moves. *)
Lemma sends_frame lines : forall b,
  let b' := snd (for_each (send_if_nonblank rt) lines b) in
  sseUrl b' = sseUrl b /\ postUrl b' = postUrl b /\
  inputBuffer b' = inputBuffer b /\ sse b' = sse b.
Proof.
  induction lines as [|l ls IH]; intros b; [simpl; auto|].
  cbv zeta. rewrite for_each_cons. simpl.
  destruct (IH (snd (send_if_nonblank rt l b))) as (H1 & H2 & H3 & H4).
  rewrite H1, H2, H3, H4. unfold send_if_nonblank.
  destruct (truthy (trim l)); [|simpl; auto].
  rewrite forward_line_state. simpl. auto.
Qed.

Lemma sends_posted lines : forall b,
  posted (fst (for_each (send_if_nonblank rt) lines b)) = filter nonblank lines.
Proof.
  induction lines as [|l ls IH]; intros b; [reflexivity|].
  rewrite for_each_cons. simpl fst. rewrite posted_app, IH.
  unfold send_if_nonblank, nonblank. simpl filter.
  destruct (truthy (trim l)); [|reflexivity].
  now rewrite forward_line_posted.
Qed.

Lemma sends_targets lines : forall b,
  Forall (fun u => u = postUrl b)
         (post_targets (fst (for_each (send_if_nonblank rt) lines b))).
Proof.
  induction lines as [|l ls IH]; intros b; [constructor|].
  rewrite for_each_cons. simpl fst. rewrite post_targets_app.
  apply Forall_app. split.
  - unfold send_if_nonblank. destruct (truthy (trim l)); [|constructor].
    rewrite forward_line_targets. now constructor.
  - specialize (IH (snd (send_if_nonblank rt l b))).
    assert (Hu : postUrl (snd (send_if_nonblank rt l b)) = postUrl b).
    { unfold send_if_nonblank. destruct (truthy (trim l)); [|reflexivity].
      now rewrite forward_line_state. }
    now rewrite Hu in IH.
Qed.

(** The [while] loop with enough fuel sends the newline-terminated segments
    of the buffer and leaves the open one. *)
Lemma stdin_loop_spec fuel : forall b,
  (List.length (inputBuffer b) < fuel)%nat ->
  stdin_loop rt fuel b =
  (fst (for_each (send_if_nonblank rt) (segments (inputBuffer b)) b),
   set_inputBuffer (snd (for_each (send_if_nonblank rt) (segments (inputBuffer b)) b))
                   (open_segment (inputBuffer b))).
Proof.
  induction fuel as [|fuel IH]; intros b Hlen; [lia|].
  simpl. destruct (indexOf NL (inputBuffer b)) as [i|] eqn:E.
  - destruct (indexOf_Some _ _ _ E) as [Hline Hbuf].
    assert (Hsp : split_on NL (inputBuffer b)
                  = slice_to i (inputBuffer b)
                    :: split_on NL (slice_from (i + 1) (inputBuffer b))).
    { rewrite Hbuf at 1. now apply split_on_first. }
    destruct (complete_partial_first (split_on NL) [NL] (split_on_splits NL)
                (slice_to i (inputBuffer b)) (slice_from (i + 1) (inputBuffer b)))
      as [Hc Hp].
    { simpl. now apply split_on_first. }
    simpl in Hc, Hp. rewrite <- Hbuf in Hc, Hp.
    unfold segments, open_segment. rewrite Hc, Hp.
    rewrite for_each_cons. simpl fst. simpl snd.
    rewrite send_if_nonblank_buffer.
    set (r := send_if_nonblank rt (slice_to i (inputBuffer b)) b).
    rewrite IH.
    + simpl inputBuffer. fold segments open_segment.
      rewrite sends_buffer. simpl. reflexivity.
    + simpl. unfold slice_from. rewrite length_skipn.
      assert (0 < List.length (inputBuffer b))%nat; [|lia].
      rewrite Hbuf, length_app. simpl. lia.
  - unfold segments, open_segment, complete, partial.
    rewrite (split_on_whole _ _ E). simpl. now destruct b.
Qed.

Lemma on_stdin_data_spec chunk b :
  let text := inputBuffer b ++ Buffer_toString chunk in
  on_stdin_data rt chunk b =
  (fst (for_each (send_if_nonblank rt) (segments text) b),
   set_inputBuffer (snd (for_each (send_if_nonblank rt) (segments text) b))
                   (open_segment text)).
Proof.
  cbv zeta. unfold on_stdin_data. rewrite stdin_loop_spec.
  - simpl inputBuffer. rewrite sends_buffer. reflexivity.
  - simpl. lia.
Qed.

End StdinFacts.

(** ** Decoding *)

Lemma utf8_run_app bs1 : forall st bs2,
  utf8_run st (bs1 ++ bs2) =
  (fst (utf8_run (fst (utf8_run st bs1)) bs2),
   snd (utf8_run st bs1) ++ snd (utf8_run (fst (utf8_run st bs1)) bs2)).
Proof.
  induction bs1 as [|b bs1 IH]; intros st bs2; simpl.
  - now destruct (utf8_run st bs2).
  - destruct (utf8_step st (to_N b)) as [st1 out1]. rewrite IH.
    destruct (utf8_run st1 bs1) as [st2 out2]. simpl.
    now rewrite app_assoc.
Qed.

Lemma utf8_lead_closed b :
  needed (fst (utf8_lead b)) = 0 -> fst (utf8_lead b) = utf8_init.
Proof.
  unfold utf8_lead.
  repeat match goal with |- context [if ?c then _ else _] => destruct c end;
    simpl; intros H; try reflexivity; discriminate.
Qed.

Lemma utf8_step_closed st b :
  needed (fst (utf8_step st b)) = 0 -> fst (utf8_step st b) = utf8_init.
Proof.
  unfold utf8_step. destruct (needed st =? 0) eqn:E.
  - apply utf8_lead_closed.
  - destruct ((b <? lower st) || (upper st <? b)).
    + pose proof (utf8_lead_closed b) as H.
      destruct (utf8_lead b) as [st' out]. exact H.
    + destruct (seen st + 1 =? needed st); simpl; [reflexivity|].
      intros H. rewrite H in E. discriminate.
Qed.

Lemma utf8_run_closed bs : forall st,
  (needed st = 0 -> st = utf8_init) ->
  needed (fst (utf8_run st bs)) = 0 -> fst (utf8_run st bs) = utf8_init.
Proof.
  induction bs as [|b bs IH]; intros st Hst; simpl; [exact Hst|].
  pose proof (utf8_step_closed st (to_N b)) as Hstep.
  destruct (utf8_step st (to_N b)) as [st1 out1]. simpl in Hstep.
  specialize (IH st1 Hstep).
  destruct (utf8_run st1 bs) as [st2 out2]. exact IH.
Qed.

(** A buffer cut where a sequence ends decodes to the two texts in a row. *)
Lemma Buffer_toString_app c1 c2 :
  ends_on_boundary c1 = true ->
  Buffer_toString (c1 ++ c2) = Buffer_toString c1 ++ Buffer_toString c2.
Proof.
  unfold ends_on_boundary, Buffer_toString. intros H.
  apply N.eqb_eq in H. rewrite utf8_run_app.
  rewrite (utf8_run_closed c1 utf8_init (fun _ => eq_refl) H).
  destruct (utf8_run utf8_init c1) as [st1 out1]. simpl in H |- *.
  destruct (utf8_run utf8_init c2) as [st2 out2]. simpl.
  unfold utf8_flush at 2. rewrite H. simpl. now rewrite app_nil_r, app_assoc.
Qed.

Lemma ends_on_boundary_app c1 c2 :
  ends_on_boundary c1 = true -> ends_on_boundary c2 = true ->
  ends_on_boundary (c1 ++ c2) = true.
Proof.
  unfold ends_on_boundary. intros H1 H2. apply N.eqb_eq in H1.
  rewrite utf8_run_app. simpl.
  now rewrite (utf8_run_closed c1 utf8_init (fun _ => eq_refl) H1).
Qed.

Lemma Buffer_toString_concat chunks :
  Forall (fun c => ends_on_boundary c = true) chunks ->
  ends_on_boundary (List.concat chunks) = true /\
  Buffer_toString (List.concat chunks)
  = List.concat (List.map Buffer_toString chunks).
Proof.
  induction 1 as [|c cs Hc _ [IH1 IH2]]; [split; reflexivity|].
  simpl. split.
  - now apply ends_on_boundary_app.
  - now rewrite Buffer_toString_app, IH2.
Qed.

(** ** Runs of stdin chunks *)

Section StdinRuns.

Variable rt : runtime.

Lemma step_stdin chunk b : step rt (StdinData chunk) b = on_stdin_data rt chunk b.
Proof. unfold step. now destruct (sse b). Qed.

Lemma open_segment_closed s : indexOf NL (open_segment s) = None.
Proof.
  apply (split_on_pieces NL s). unfold open_segment, partial.
  pose proof (sp_nonempty _ _ (split_on_splits NL) s) as Hne.
  destruct (split_on NL s) as [|p ps]; [now elim Hne|].
  apply (@exists_last _ (p :: ps)) in Hne as (ps' & z & ->).
  rewrite last_last. apply in_or_app. right. now left.
Qed.

Lemma segments_closed s : indexOf NL s = None -> segments s = [] /\ open_segment s = s.
Proof.
  intros H. unfold segments, open_segment, complete, partial.
  now rewrite (split_on_whole _ _ H).
Qed.

(** Chunks handled one after the other send what one chunk holding all of
    their texts would send. *)
Lemma run_stdin chunks : forall b,
  indexOf NL (inputBuffer b) = None ->
  let text := inputBuffer b ++ List.concat (List.map Buffer_toString chunks) in
  run rt (List.map StdinData chunks) b =
  (fst (for_each (send_if_nonblank rt) (segments text) b),
   set_inputBuffer (snd (for_each (send_if_nonblank rt) (segments text) b))
                   (open_segment text)).
Proof.
  unfold run. induction chunks as [|c cs IH]; intros b Hb; cbv zeta.
  - simpl. rewrite app_nil_r.
    destruct (segments_closed _ Hb) as [-> ->]. simpl. now destruct b.
  - simpl List.map. rewrite for_each_cons, step_stdin, on_stdin_data_spec.
    cbv zeta. simpl fst. simpl snd.
    set (t1 := inputBuffer b ++ Buffer_toString c).
    set (b1 := snd (for_each (send_if_nonblank rt) (segments t1) b)).
    rewrite IH by (simpl; apply open_segment_closed).
    cbv zeta. simpl inputBuffer. rewrite sends_buffer. simpl fst. simpl snd.
    simpl List.concat. rewrite app_assoc. fold t1.
    destruct (framing_app _ _ (split_on_splits NL) t1
                (List.concat (List.map Buffer_toString cs))) as [Hc Hp].
    fold segments open_segment in Hc, Hp.
    rewrite Hc, Hp, for_each_app. reflexivity.
Qed.

Lemma run_stdin_posted chunks b :
  indexOf NL (inputBuffer b) = None ->
  posted (fst (run rt (List.map StdinData chunks) b))
  = filter nonblank
      (segments (inputBuffer b ++ List.concat (List.map Buffer_toString chunks))).
Proof.
  intros Hb. rewrite (run_stdin chunks b Hb). simpl. apply sends_posted.
Qed.

(** The line framer, for chunks cut between characters: the bodies posted
    are the non-blank newline-terminated segments of the whole input, in
    order, however the input is cut. *)
Lemma line_framer_chunk_invariant chunks b :
  inputBuffer b = [] ->
  Forall (fun c => ends_on_boundary c = true) chunks ->
  posted (fst (run rt (List.map StdinData chunks) b))
  = filter nonblank (segments (Buffer_toString (List.concat chunks))).
Proof.
  intros Hb Hchunks. rewrite run_stdin_posted by now rewrite Hb.
  rewrite Hb. simpl. now rewrite (proj2 (Buffer_toString_concat _ Hchunks)).
Qed.

End StdinRuns.

(** ** Strings *)

Lemma jsstring_eqb_eq a b : jsstring_eqb a b = true <-> a = b.
Proof.
  unfold jsstring_eqb. destruct (list_eq_dec N.eq_dec a b); split;
    congruence.
Qed.

Lemma startsWith_app p s : startsWith p (p ++ s) = true.
Proof.
  induction p as [|a p IH]; simpl; [now destruct s|].
  now rewrite N.eqb_refl.
Qed.

Lemma startsWith_prefix p s :
  startsWith p s = true -> s = p ++ slice_from (List.length p) s.
Proof.
  unfold slice_from. revert s. induction p as [|a p IH]; intros s H; [reflexivity|].
  destruct s as [|b s]; [discriminate|]. simpl in H.
  apply andb_true_iff in H as [Hab H]. apply N.eqb_eq in Hab. subst b.
  simpl. f_equal. now apply IH.
Qed.

Lemma slice_from_app p s : slice_from (List.length p) (p ++ s) = s.
Proof.
  unfold slice_from. rewrite skipn_app, skipn_all, Nat.sub_diag. reflexivity.
Qed.

Lemma indexOf_slice_from c n s :
  indexOf c s = None -> indexOf c (slice_from n s) = None.
Proof.
  intros H. rewrite <- (firstn_skipn n s) in H.
  now apply indexOf_None_app in H.
Qed.

Lemma trimStart_nil s : trimStart s = [] <-> forallb is_ws s = true.
Proof.
  induction s as [|c s IH]; simpl; [tauto|].
  destruct (is_ws c); simpl; [exact IH|]. split; discriminate.
Qed.

Lemma forallb_rev {A} (f : A -> bool) l : forallb f (rev l) = forallb f l.
Proof.
  destruct (forallb f l) eqn:E.
  - rewrite forallb_forall in E |- *. intros x Hx. apply E. now apply in_rev.
  - destruct (forallb f (rev l)) eqn:E'; [|reflexivity].
    rewrite forallb_forall in E'. rewrite <- E. symmetry.
    apply forallb_forall. intros x Hx. apply E'. now apply in_rev in Hx.
Qed.

Lemma trimStart_suffix s : exists p, s = p ++ trimStart s /\ forallb is_ws p = true.
Proof.
  induction s as [|c s (p & Hp & Hws)]; [now exists []|].
  simpl. destruct (is_ws c) eqn:E.
  - exists (c :: p). simpl. rewrite E, Hws. split; [now f_equal | reflexivity].
  - now exists [].
Qed.

(** A line passes the [trim] test when one of its units is not white space. *)
Lemma nonblank_spec s : nonblank s = negb (forallb is_ws s).
Proof.
  unfold nonblank, trim, trimEnd.
  destruct (trimStart_suffix s) as (p & Hs & Hp).
  assert (Hall : forallb is_ws s = forallb is_ws (trimStart s)).
  { rewrite Hs at 1. now rewrite forallb_app, Hp. }
  rewrite Hall.
  destruct (trimStart (rev (trimStart s))) as [|c r] eqn:E.
  - apply trimStart_nil in E. rewrite forallb_rev in E. now rewrite E.
  - assert (Hne : forallb is_ws (rev (trimStart s)) <> true).
    { intros H. apply trimStart_nil in H. congruence. }
    rewrite forallb_rev in Hne.
    destruct (forallb is_ws (trimStart s)); [now elim Hne|].
    simpl. now destruct (rev r ++ [c]) eqn:E'; [destruct (rev r); discriminate|].
Qed.

Lemma nonblank_app_r s t : nonblank s = true -> nonblank (s ++ t) = true.
Proof.
  rewrite !nonblank_spec, forallb_app. now destruct (forallb is_ws s).
Qed.

Lemma blank_trim s : nonblank s = false -> trim s = [].
Proof.
  unfold nonblank. now destruct (trim s).
Qed.

(** Lines written one after the other, each closed by a newline, are the
    segments of the text. *)
Lemma segments_of_lines lines rest :
  Forall (fun l => indexOf NL l = None) lines ->
  indexOf NL rest = None ->
  segments (List.concat (List.map (fun l => l ++ [NL]) lines) ++ rest) = lines /\
  open_segment (List.concat (List.map (fun l => l ++ [NL]) lines) ++ rest) = rest.
Proof.
  intros Hl Hr. induction Hl as [|l ls Hl _ [IH1 IH2]].
  - simpl. now apply segments_closed.
  - simpl. rewrite <- !app_assoc. simpl.
    destruct (complete_partial_first (split_on NL) [NL] (split_on_splits NL) l
      (List.concat (List.map (fun l0 => l0 ++ [NL]) ls) ++ rest)) as [Hc Hp].
    { simpl. now apply split_on_first. }
    simpl in Hc, Hp. unfold segments, open_segment in *.
    rewrite Hc, Hp, IH1, IH2. auto.
Qed.

Lemma block_like_first e : block_like e = true ->
  forall x, split_blank (e ++ [NL; NL] ++ x) = e :: split_blank x.
Proof.
  induction e as [|a e IH]; intros H x; [reflexivity|].
  simpl in H. destruct e as [|b e'].
  - apply negb_true_iff in H.
    change (split_blank ([a] ++ [NL; NL] ++ x))
      with (if (a =? NL) && (NL =? NL) then [] :: split_blank (NL :: x)
            else cons_head a (split_blank (NL :: NL :: x))).
    rewrite H. reflexivity.
  - apply andb_true_iff in H as [Hab H]. apply negb_true_iff in Hab.
    specialize (IH H x).
    change ((a :: b :: e') ++ [NL; NL] ++ x)
      with (a :: b :: (e' ++ [NL; NL] ++ x)).
    change (split_blank (a :: b :: (e' ++ [NL; NL] ++ x)))
      with (if (a =? NL) && (b =? NL) then [] :: split_blank (e' ++ [NL; NL] ++ x)
            else cons_head a (split_blank ((b :: e') ++ [NL; NL] ++ x))).
    rewrite Hab, IH. reflexivity.
Qed.

Lemma blocks_of_events events rest :
  Forall (fun e => block_like e = true) events ->
  split_blank rest = [rest] ->
  blocks (List.concat (List.map (fun e => e ++ [NL; NL]) events) ++ rest) = events /\
  open_block (List.concat (List.map (fun e => e ++ [NL; NL]) events) ++ rest) = rest.
Proof.
  intros He Hr. induction He as [|e es He _ [IH1 IH2]].
  - simpl. unfold blocks, open_block, complete, partial. now rewrite Hr.
  - simpl. rewrite <- !app_assoc.
    destruct (complete_partial_first split_blank [NL; NL] split_blank_splits e
      (List.concat (List.map (fun e0 => e0 ++ [NL; NL]) es) ++ rest)) as [Hc Hp].
    { now apply block_like_first. }
    unfold blocks, open_block in *.
    rewrite Hc, Hp, IH1, IH2. auto.
Qed.

(** ** Nothing is lost in framing *)

Section JoinFacts.

Variable sp : jsstring -> list jsstring.
Variable sep : jsstring.
Hypothesis sp_splits : splits_by sp sep.

(** The complete pieces, each followed by the separator, and the open piece
    after them are the text that was split. *)
Lemma join_complete_partial s :
  List.concat (List.map (fun l => l ++ sep) (complete sp s)) ++ partial sp s = s.
Proof.
  remember (List.length s) as n eqn:Hn. revert s Hn.
  induction n as [n IH] using lt_wf_ind. intros s Hn.
  destruct (sp_splits s) as [H | (l & r & Hs & Hlen & H)].
  - unfold complete, partial. now rewrite H.
  - destruct (complete_partial_first sp sep sp_splits l r (H r)) as [Hc Hp].
    rewrite Hs, Hc, Hp. simpl.
    rewrite <- !app_assoc. do 2 f_equal.
    apply (IH (List.length r)); [lia | reflexivity].
Qed.

End JoinFacts.

Lemma in_removelast {A} (x : A) l : In x (removelast l) -> In x l.
Proof.
  induction l as [|a l IH]; [tauto|].
  destruct l as [|b l']; [simpl; tauto|].
  change (removelast (a :: b :: l')) with (a :: removelast (b :: l')).
  intros [->|H]; [now left | right; now apply IH].
Qed.

Lemma segments_pieces s l : In l (segments s) -> indexOf NL l = None.
Proof.
  intros H. apply (split_on_pieces NL s). now apply in_removelast.
Qed.

(** Every text is, in one way, lines without a newline in them, each
    followed by a newline, and a rest without a newline. *)
Lemma text_is_lines_and_rest text :
  text = List.concat (List.map (fun l => l ++ [NL]) (segments text)) ++ open_segment text /\
  Forall (fun l => indexOf NL l = None) (segments text) /\
  indexOf NL (open_segment text) = None /\
  (forall lines rest,
     text = List.concat (List.map (fun l => l ++ [NL]) lines) ++ rest ->
     Forall (fun l => indexOf NL l = None) lines -> indexOf NL rest = None ->
     lines = segments text /\ rest = open_segment text).
Proof.
  split; [|split; [|split]].
  - symmetry. apply (join_complete_partial _ _ (split_on_splits NL)).
  - apply Forall_forall. intros l. apply segments_pieces.
  - apply open_segment_closed.
  - intros lines rest -> Hl Hr.
    destruct (segments_of_lines lines rest Hl Hr) as [-> ->]. now split.
Qed.

(** ** The SSE reader *)

Lemma strip_bom_app seen o1 o2 :
  strip_bom seen (o1 ++ o2) =
  (fst (strip_bom (fst (strip_bom seen o1)) o2),
   snd (strip_bom seen o1) ++ snd (strip_bom (fst (strip_bom seen o1)) o2)).
Proof.
  destruct seen; [reflexivity|].
  destruct o1 as [|c r].
  - destruct o2; reflexivity.
  - simpl. destruct (c =? 0xFEFF); reflexivity.
Qed.

(** A streaming decoder does not see where its input was cut. *)
Lemma decode_stream_app d v1 v2 :
  decode_stream d (v1 ++ v2) =
  (fst (decode_stream (fst (decode_stream d v1)) v2),
   snd (decode_stream d v1) ++ snd (decode_stream (fst (decode_stream d v1)) v2)).
Proof.
  unfold decode_stream. rewrite utf8_run_app.
  destruct (utf8_run (dec_utf8 d) v1) as [st1 o1]. simpl.
  rewrite strip_bom_app.
  destruct (strip_bom (dec_bom_seen d) o1) as [seen1 o1']. simpl.
  destruct (utf8_run st1 v2) as [st2 o2]. simpl.
  destruct (strip_bom seen1 o2) as [seen2 o2']. reflexivity.
Qed.

Lemma decode_stream_nil d : decode_stream d [] = (d, []).
Proof.
  unfold decode_stream. simpl. destruct d as [st seen0]. simpl.
  now destruct seen0.
Qed.

Lemma open_block_whole s : split_blank (open_block s) = [open_block s].
Proof. apply (partial_whole _ _ split_blank_splits). Qed.

(** The reads of a connection complete the blocks of the decoded stream, and
    keep the block that is still open. *)
Lemma read_all_spec values : forall d buf,
  split_blank buf = [buf] ->
  read_all d buf values =
  (blocks (buf ++ snd (decode_stream d (List.concat values))),
   (fst (decode_stream d (List.concat values)),
    open_block (buf ++ snd (decode_stream d (List.concat values))))).
Proof.
  induction values as [|v vs IH]; intros d buf Hbuf.
  - simpl. rewrite decode_stream_nil. simpl. rewrite app_nil_r.
    unfold blocks, open_block, complete, partial. now rewrite Hbuf.
  - simpl. unfold frame_events, pop. rewrite decode_stream_app.
    destruct (decode_stream d v) as [d1 chunk]. simpl.
    fold (open_block (buf ++ chunk)). fold (blocks (buf ++ chunk)).
    rewrite IH by apply open_block_whole.
    destruct (decode_stream d1 (List.concat vs)) as [d2 text]. simpl.
    rewrite app_assoc.
    destruct (framing_app _ _ split_blank_splits (buf ++ chunk) text) as [Hc Hp].
    fold blocks open_block in Hc, Hp. now rewrite Hc, Hp.
Qed.

Section SseFacts.

Variable rt : runtime.

Lemma relay_spec d :
  relay rt d = if is_suppressed rt d then [] else [Stdout (d ++ [NL])].
Proof.
  unfold relay, is_suppressed. destruct (JSON_parse rt d) as [msg|]; [|reflexivity].
  destruct (get_method msg) as [| |v]; try reflexivity.
  unfold suppressed_method. now destruct v.
Qed.

(** One line of a block: what it may write, and what it leaves of the
    bridge. *)
Lemma on_sse_line_cases line flag b :
  let r := on_sse_line rt line (flag, b) in
  (fst r = [] \/ exists d, classify line = DataLine d /\ fst r = relay rt d) /\
  (snd (snd r) = b \/ exists u, snd (snd r) = set_postUrl b u).
Proof.
  cbv zeta. unfold on_sse_line. destruct (classify line) as [n|d|].
  - destruct (jsstring_eqb n (js "endpoint")); simpl; auto.
  - destruct flag.
    + destruct (endpoint_target rt (sseUrl b) d) as [u|]; simpl.
      * split; [now left | right; now exists u].
      * split; [right; now exists d | now left].
    + simpl. split; [right; now exists d | now left].
  - simpl. auto.
Qed.

(** The reader does not look at its own phase. *)
Lemma on_sse_line_sse line flag b p :
  on_sse_line rt line (flag, set_sse b p) =
  (fst (on_sse_line rt line (flag, b)),
   (fst (snd (on_sse_line rt line (flag, b))),
    set_sse (snd (snd (on_sse_line rt line (flag, b)))) p)).
Proof.
  unfold on_sse_line. destruct (classify line) as [n|d|].
  - now destruct (jsstring_eqb n (js "endpoint")).
  - destruct flag; [|reflexivity]. simpl sseUrl.
    now destruct (endpoint_target rt (sseUrl b) d).
  - reflexivity.
Qed.

Lemma on_sse_lines_sse lines : forall flag b p,
  for_each (on_sse_line rt) lines (flag, set_sse b p) =
  (fst (for_each (on_sse_line rt) lines (flag, b)),
   (fst (snd (for_each (on_sse_line rt) lines (flag, b))),
    set_sse (snd (snd (for_each (on_sse_line rt) lines (flag, b)))) p)).
Proof.
  induction lines as [|l ls IH]; intros flag b p; [reflexivity|].
  rewrite !for_each_cons, on_sse_line_sse.
  destruct (on_sse_line rt l (flag, b)) as [t1 [f1 b1]]. simpl.
  now rewrite IH.
Qed.

Lemma on_sse_event_sse event b p :
  on_sse_event rt event (set_sse b p) =
  (fst (on_sse_event rt event b), set_sse (snd (on_sse_event rt event b)) p).
Proof.
  unfold on_sse_event. rewrite on_sse_lines_sse.
  now destruct (for_each (on_sse_line rt) (split_on NL event) (false, b))
    as [t [f b']].
Qed.

Lemma on_sse_events_sse events : forall b p,
  for_each (on_sse_event rt) events (set_sse b p) =
  (fst (for_each (on_sse_event rt) events b),
   set_sse (snd (for_each (on_sse_event rt) events b)) p).
Proof.
  induction events as [|e es IH]; intros b p; [reflexivity|].
  rewrite !for_each_cons, on_sse_event_sse.
  destruct (on_sse_event rt e b) as [t1 b1]. simpl.
  now rewrite IH.
Qed.

(** The lines of a block leave everything but the target of the POSTs. *)
Lemma on_sse_lines_frame lines : forall flag b,
  let b' := snd (snd (for_each (on_sse_line rt) lines (flag, b))) in
  sseUrl b' = sseUrl b /\ inputBuffer b' = inputBuffer b /\
  posts_made b' = posts_made b /\ sse b' = sse b.
Proof.
  induction lines as [|l ls IH]; intros flag b; [simpl; auto|].
  cbv zeta. rewrite for_each_cons.
  destruct (on_sse_line_cases l flag b) as [_ Hb]. cbv zeta in Hb.
  destruct (on_sse_line rt l (flag, b)) as [t1 [f1 b1]]. cbn [fst snd] in Hb |- *.
  destruct (IH f1 b1) as (H1 & H2 & H3 & H4).
  rewrite H1, H2, H3, H4.
  destruct Hb as [->|[u ->]]; simpl; auto.
Qed.

Lemma on_sse_event_frame event b :
  let b' := snd (on_sse_event rt event b) in
  sseUrl b' = sseUrl b /\ inputBuffer b' = inputBuffer b /\
  posts_made b' = posts_made b /\ sse b' = sse b.
Proof.
  cbv zeta. unfold on_sse_event.
  pose proof (on_sse_lines_frame (split_on NL event) false b) as H.
  now destruct (for_each (on_sse_line rt) (split_on NL event) (false, b))
    as [t [f b']].
Qed.

(** All that the lines of a block write is the payload of a data line that
    is not suppressed, and a newline. *)
Lemma on_sse_lines_writes lines : forall flag b w,
  In w (stdout_writes (fst (for_each (on_sse_line rt) lines (flag, b)))) ->
  exists d, In (DataLine d) (List.map classify lines) /\
            is_suppressed rt d = false /\ w = d ++ [NL].
Proof.
  induction lines as [|l ls IH]; intros flag b w Hw; [destruct Hw|].
  rewrite for_each_cons in Hw. cbn [fst snd] in Hw.
  rewrite stdout_writes_app in Hw. apply in_app_or in Hw as [Hw|Hw].
  - destruct (on_sse_line_cases l flag b) as [[H|(d & Hd & H)] _];
      cbv zeta in H; rewrite H in Hw; [destruct Hw|].
    rewrite relay_spec in Hw. destruct (is_suppressed rt d) eqn:E; [destruct Hw|].
    destruct Hw as [<-|[]]. exists d. simpl. rewrite Hd. auto.
  - destruct (snd (on_sse_line rt l (flag, b))) as [f1 b1].
    destruct (IH f1 b1 w Hw) as (d & Hd & H). exists d. simpl. tauto.
Qed.

Lemma data_payloads_spec event d :
  In d (data_payloads event) <-> In (DataLine d) (List.map classify (split_on NL event)).
Proof.
  unfold data_payloads. rewrite in_flat_map, in_map_iff. split.
  - intros (l & Hl & H). exists l. split; [|exact Hl].
    destruct (classify l) as [n|d0|]; simpl in H; [destruct H| |destruct H].
    destruct H as [<-|[]]. reflexivity.
  - intros (l & Hc & Hl). exists l. split; [exact Hl|]. rewrite Hc. now left.
Qed.

Lemma data_payload_closed event d :
  In d (data_payloads event) -> indexOf NL d = None.
Proof.
  intros H. apply data_payloads_spec, in_map_iff in H as (l & Hc & Hl).
  apply split_on_pieces in Hl. unfold classify in Hc.
  destruct (startsWith (js "event: ") l); [discriminate|].
  destruct (startsWith (js "data: ") l); [|discriminate].
  assert (Hd : d = slice_from 6 l) by congruence.
  rewrite Hd. now apply indexOf_slice_from.
Qed.

Lemma on_sse_event_writes event b w :
  In w (stdout_writes (fst (on_sse_event rt event b))) ->
  exists d, In d (data_payloads event) /\ is_suppressed rt d = false /\
            w = d ++ [NL].
Proof.
  unfold on_sse_event. intros Hw.
  destruct (for_each (on_sse_line rt) (split_on NL event) (false, b))
    as [t s] eqn:E. simpl in Hw.
  pose proof (on_sse_lines_writes (split_on NL event) false b w) as H.
  rewrite E in H. destruct (H Hw) as (d & Hd & Hs & ->).
  exists d. rewrite data_payloads_spec. auto.
Qed.

Lemma on_sse_line_plain line b :
  match classify line with
  | EventLine n => jsstring_eqb n (js "endpoint")
  | _ => false
  end = false ->
  on_sse_line rt line (false, b) =
  (match classify line with DataLine d => relay rt d | _ => [] end, (false, b)).
Proof.
  unfold on_sse_line. destruct (classify line) as [n|d|]; intros H;
    [now rewrite H | reflexivity | reflexivity].
Qed.

(** A block that does not name the endpoint event is relayed, data line by
    data line, and leaves the bridge as it was. *)
Lemma on_sse_lines_plain lines : forall b,
  existsb (fun line => match classify line with
                       | EventLine n => jsstring_eqb n (js "endpoint")
                       | _ => false
                       end) lines = false ->
  for_each (on_sse_line rt) lines (false, b) =
  (flat_map (relay rt)
     (flat_map (fun line => match classify line with DataLine d => [d] | _ => [] end)
               lines),
   (false, b)).
Proof.
  induction lines as [|l ls IH]; intros b H; [reflexivity|].
  simpl in H. apply orb_false_iff in H as [Hl H].
  rewrite for_each_cons, (on_sse_line_plain l b Hl). cbn [fst snd].
  rewrite (IH b H). cbn [fst snd flat_map]. rewrite flat_map_app.
  destruct (classify l) as [n|d|]; simpl; now rewrite ?app_nil_r.
Qed.

Lemma on_sse_event_plain event b :
  names_endpoint event = false ->
  on_sse_event rt event b = (flat_map (relay rt) (data_payloads event), b).
Proof.
  intros H. unfold on_sse_event. now rewrite on_sse_lines_plain.
Qed.

End SseFacts.

(** ** Steps of the machine *)

Lemma only_stdout_nil : only_stdout [].
Proof. reflexivity. Qed.

Lemma only_stdout_app t1 t2 : only_stdout t1 -> only_stdout t2 -> only_stdout (t1 ++ t2).
Proof.
  unfold only_stdout. intros H1 H2.
  rewrite stdout_writes_app, map_app, <- H1, <- H2. reflexivity.
Qed.

Lemma only_stdout_silent tr :
  only_stdout tr ->
  post_targets tr = [] /\ posted tr = [] /\ connection_attempts tr = 0%nat /\
  stderr_writes tr = [].
Proof.
  unfold only_stdout. intros ->. generalize (stdout_writes tr) as ws.
  unfold connection_attempts. induction ws as [|w ws (H1 & H2 & H3 & H4)]; simpl; auto.
Qed.


Section MachineFacts.

Variable rt : runtime.

Lemma forward_line_no_timers line b :
  timers_set (fst (forward_line rt line b)) = 0%nat.
Proof.
  unfold forward_line.
  destruct (remote rt (posts_made b) (postUrl b) line) as [m|st [text|m]];
    try reflexivity.
  simpl. now destruct (truthy text && truthy (trim text)).
Qed.

Lemma sends_no_timers lines : forall b,
  timers_set (fst (for_each (send_if_nonblank rt) lines b)) = 0%nat.
Proof.
  induction lines as [|l ls IH]; intros b; [reflexivity|].
  rewrite for_each_cons. cbn [fst snd]. rewrite timers_set_app, IH.
  unfold send_if_nonblank. destruct (truthy (trim l)); [|reflexivity].
  now rewrite forward_line_no_timers.
Qed.

Lemma relay_only_stdout d : only_stdout (relay rt d).
Proof. rewrite relay_spec. now destruct (is_suppressed rt d). Qed.

Lemma on_sse_lines_only_stdout lines : forall flag b,
  only_stdout (fst (for_each (on_sse_line rt) lines (flag, b))).
Proof.
  induction lines as [|l ls IH]; intros flag b; [reflexivity|].
  rewrite for_each_cons. cbn [fst snd]. apply only_stdout_app.
  - destruct (on_sse_line_cases rt l flag b) as [[H|(d & _ & H)] _];
      cbv zeta in H; rewrite H; [reflexivity | apply relay_only_stdout].
  - destruct (snd (on_sse_line rt l (flag, b))) as [f1 b1]. apply IH.
Qed.

Lemma on_sse_event_only_stdout event b : only_stdout (fst (on_sse_event rt event b)).
Proof.
  unfold on_sse_event.
  pose proof (on_sse_lines_only_stdout (split_on NL event) false b) as H.
  now destruct (for_each (on_sse_line rt) (split_on NL event) (false, b)).
Qed.

Lemma on_sse_events_only_stdout events : forall b,
  only_stdout (fst (for_each (on_sse_event rt) events b)).
Proof.
  induction events as [|e es IH]; intros b; [reflexivity|].
  rewrite for_each_cons. cbn [fst snd].
  apply only_stdout_app; [apply on_sse_event_only_stdout | apply IH].
Qed.

Lemma on_sse_events_frame events : forall b,
  let b' := snd (for_each (on_sse_event rt) events b) in
  sseUrl b' = sseUrl b /\ inputBuffer b' = inputBuffer b /\
  posts_made b' = posts_made b /\ sse b' = sse b.
Proof.
  induction events as [|e es IH]; intros b; [simpl; auto|].
  cbv zeta. rewrite for_each_cons. cbn [fst snd].
  destruct (IH (snd (on_sse_event rt e b))) as (H1 & H2 & H3 & H4).
  destruct (on_sse_event_frame rt e b) as (G1 & G2 & G3 & G4).
  rewrite H1, H2, H3, H4. auto.
Qed.

Lemma on_sse_events_writes events : forall b w,
  In w (stdout_writes (fst (for_each (on_sse_event rt) events b))) ->
  exists e d, In e events /\ In d (data_payloads e) /\
              is_suppressed rt d = false /\ w = d ++ [NL].
Proof.
  induction events as [|e es IH]; intros b w Hw; [destruct Hw|].
  rewrite for_each_cons in Hw. cbn [fst snd] in Hw.
  rewrite stdout_writes_app in Hw. apply in_app_or in Hw as [Hw|Hw].
  - destruct (on_sse_event_writes rt e b w Hw) as (d & H1 & H2 & H3).
    exists e, d. simpl. auto.
  - destruct (IH _ w Hw) as (e' & d & H0 & H1 & H2 & H3).
    exists e', d. simpl. auto.
Qed.

Lemma on_sse_events_plain events : forall b,
  existsb names_endpoint events = false ->
  postUrl (snd (for_each (on_sse_event rt) events b)) = postUrl b.
Proof.
  induction events as [|e es IH]; intros b H; [reflexivity|].
  simpl in H. apply orb_false_iff in H as [He H].
  rewrite for_each_cons. cbn [fst snd].
  rewrite (on_sse_event_plain rt e b He). cbn [snd]. now apply IH.
Qed.



Lemma forward_line_no_get line b :
  connection_attempts (fst (forward_line rt line b)) = 0%nat.
Proof.
  unfold forward_line.
  destruct (remote rt (posts_made b) (postUrl b) line) as [m|st [text|m]];
    try reflexivity.
  simpl. now destruct (truthy text && truthy (trim text)).
Qed.

Lemma sends_no_get lines : forall b,
  connection_attempts (fst (for_each (send_if_nonblank rt) lines b)) = 0%nat.
Proof.
  induction lines as [|l ls IH]; intros b; [reflexivity|].
  rewrite for_each_cons. cbn [fst snd]. rewrite connection_attempts_app, IH.
  unfold send_if_nonblank. destruct (truthy (trim l)); [|reflexivity].
  now rewrite forward_line_no_get.
Qed.

(** Stdin data moves neither the SSE side nor the target of the POSTs. *)
Lemma on_stdin_data_frame chunk b :
  let r := on_stdin_data rt chunk b in
  sse (snd r) = sse b /\ postUrl (snd r) = postUrl b /\ sseUrl (snd r) = sseUrl b /\
  connection_attempts (fst r) = 0%nat /\
  Forall (fun u => u = postUrl b) (post_targets (fst r)).
Proof.
  cbv zeta. rewrite on_stdin_data_spec. cbn [fst snd].
  set (ls := segments (inputBuffer b ++ Buffer_toString chunk)).
  destruct (sends_frame rt ls b) as (H1 & H2 & H3 & H4).
  simpl. rewrite H1, H2, H4. repeat split.
  - apply sends_no_get.
  - apply sends_targets.
Qed.

Lemma step_sse_read value d buf b :
  sse b = Streaming d buf ->
  step rt (SseRead value) b = on_sse_read rt d buf value b.
Proof. unfold step. now intros ->. Qed.

(** The reads of a connection hand the blocks they complete to the reader,
    in order. *)
Lemma run_sse_reads values : forall d buf b,
  sse b = Streaming d buf ->
  run rt (List.map SseRead values) b =
  (fst (for_each (on_sse_event rt) (fst (read_all d buf values)) b),
   set_sse (snd (for_each (on_sse_event rt) (fst (read_all d buf values)) b))
           (Streaming (fst (snd (read_all d buf values)))
                      (snd (snd (read_all d buf values))))).
Proof.
  unfold run. induction values as [|v vs IH]; intros d buf b Hb.
  - simpl. rewrite <- Hb. now destruct b.
  - simpl List.map. rewrite for_each_cons, (step_sse_read v d buf b Hb).
    unfold on_sse_read. simpl read_all.
    destruct (frame_events d buf v) as [events [d1 rest]].
    destruct (for_each (on_sse_event rt) events b) as [t1 b1] eqn:E1.
    cbn [fst snd].
    rewrite (IH d1 rest (set_sse b1 (Streaming d1 rest)) eq_refl).
    destruct (read_all d1 rest vs) as [more [d2 rest2]]. cbn [fst snd].
    rewrite on_sse_events_sse, for_each_app, E1. cbn [fst snd]. reflexivity.
Qed.

End MachineFacts.

(** * The claims *)

(** ** Startup *)

Lemma endsWith_spec suffix s :
  endsWith suffix s = true <-> exists p, s = p ++ suffix.
Proof.
  unfold endsWith. split.
  - intros H. apply startsWith_prefix in H.
    exists (rev (slice_from (List.length (rev suffix)) (rev s))).
    rewrite <- (rev_involutive suffix) at 2. rewrite <- rev_app_distr, <- H.
    now rewrite rev_involutive.
  - intros [p ->]. rewrite rev_app_distr. apply startsWith_app.
Qed.

Lemma replace_sse_suffix_spec u :
  (forall p, u = p ++ js "/sse" -> replace_sse_suffix u = p ++ js "/mcp") /\
  ((forall p, u <> p ++ js "/sse") -> replace_sse_suffix u = u).
Proof.
  unfold replace_sse_suffix. split.
  - intros p ->. rewrite (proj2 (endsWith_spec _ _)) by now exists p.
    unfold slice_to. rewrite length_app.
    replace (List.length p + List.length (js "/sse") - 4)%nat with (List.length p + 0)%nat
      by (simpl; lia).
    now rewrite firstn_app_2, app_nil_r.
  - intros H. destruct (endsWith (js "/sse") u) eqn:E; [|reflexivity].
    apply endsWith_spec in E as [p Hp]. now elim (H p).
Qed.

(** C9. Without an SSE URL argument the process writes the usage message to
    the diagnostic channel and exits with status 1, and does nothing else: no
    connection attempt, no POST. With one, it starts connecting to it, and
    the first target of the POSTs is the SSE URL with a final [/sse] replaced
    by [/mcp] (the SSE URL itself when it does not end in [/sse]). *)
Theorem startup_requires_sse_url :
  (forall argv, argv_at argv 2 = None ->
     startup argv = ([Stderr usage; Exit 1], None)) /\
  (forall argv u, argv_at argv 2 = Some u -> u <> [] ->
     exists b, startup argv = ([Get u], Some b) /\
               sseUrl b = u /\ inputBuffer b = [] /\ sse b = Connecting /\
               (forall p, u = p ++ js "/sse" -> postUrl b = p ++ js "/mcp") /\
               ((forall p, u <> p ++ js "/sse") -> postUrl b = u)).
Proof.
  split.
  - intros argv H. unfold startup. now rewrite H.
  - intros argv u H Hu. unfold startup. rewrite H.
    destruct u as [|c u']; [now elim Hu|]. simpl truthy. cbv iota.
    eexists. split; [reflexivity|]. simpl.
    repeat split; try reflexivity; apply replace_sse_suffix_spec.
Qed.

Lemma startup_requires_sse_url_witness :
  startup [js "node"; js "proxy.js"] = ([Stderr usage; Exit 1], None) /\
  exists b, startup [js "node"; js "proxy.js"; sample_origin ++ js "/sse"]
            = ([Get (sample_origin ++ js "/sse")], Some b) /\
            postUrl b = sample_origin ++ js "/mcp".
Proof.
  split.
  - apply (proj1 startup_requires_sse_url). reflexivity.
  - destruct (proj2 startup_requires_sse_url
                [js "node"; js "proxy.js"; sample_origin ++ js "/sse"]
                (sample_origin ++ js "/sse") eq_refl)
      as (b & H1 & _ & _ & _ & H2 & _).
    + discriminate.
    + exists b. split; [exact H1|]. now apply H2.
Defined.

(** ** The line framer *)

Section LineFramer.

Variable rt : runtime.

(** One chunk or more, whatever the buffer held: the chunks send what one
    chunk holding all of their texts would send. *)
Lemma run_stdin_chunks chunk more b :
  let text := inputBuffer b
                ++ List.concat (List.map Buffer_toString (chunk :: more)) in
  run rt (List.map StdinData (chunk :: more)) b =
  (fst (for_each (send_if_nonblank rt) (segments text) b),
   set_inputBuffer (snd (for_each (send_if_nonblank rt) (segments text) b))
                   (open_segment text)).
Proof.
  cbv zeta. unfold run. cbn [List.map]. rewrite for_each_cons, step_stdin.
  rewrite on_stdin_data_spec. cbn [fst snd].
  set (t1 := inputBuffer b ++ Buffer_toString chunk).
  set (b1 := snd (for_each (send_if_nonblank rt) (segments t1) b)).
  fold (run rt (List.map StdinData more) (set_inputBuffer b1 (open_segment t1))).
  rewrite run_stdin by (simpl; apply open_segment_closed).
  cbv zeta. cbn [inputBuffer set_inputBuffer]. rewrite sends_buffer. cbn [fst snd].
  cbn [List.concat]. rewrite app_assoc. fold t1.
  destruct (framing_app _ _ (split_on_splits NL) t1
              (List.concat (List.map Buffer_toString more))) as [Hc Hp].
  change (complete (split_on NL)) with segments in Hc.
  change (partial (split_on NL)) with open_segment in Hc, Hp.
  rewrite Hc, Hp, for_each_app. reflexivity.
Qed.

End LineFramer.

(** C3, as the code has it. Whatever the buffer holds and however the text
    arrives in chunks: the buffer and the text of the chunks being the lines
    [lines], each followed by a newline, and a rest without newline - as
    every text is, in one way ([text_is_lines_and_rest]) - the bodies posted
    are the lines that are not blank, in order and as they stand: nothing is
    trimmed off them, a carriage return before the newline is part of the
    body. The rest is kept in the buffer. So every line that ends in a
    carriage return and is not blank is posted with it; and when every
    non-blank line ends in a carriage return, every body posted does. *)
Theorem crlf_lines_keep_carriage_return rt b chunk more lines rest :
  inputBuffer b ++ List.concat (List.map Buffer_toString (chunk :: more))
  = List.concat (List.map (fun l => l ++ [NL]) lines) ++ rest ->
  Forall (fun l => indexOf NL l = None) lines ->
  indexOf NL rest = None ->
  let r := run rt (List.map StdinData (chunk :: more)) b in
  posted (fst r) = filter nonblank lines /\
  inputBuffer (snd r) = rest /\
  (forall l, In (l ++ [CR]) lines -> nonblank (l ++ [CR]) = true ->
             In (l ++ [CR]) (posted (fst r))) /\
  (Forall (fun l => nonblank l = true -> exists l', l = l' ++ [CR]) lines ->
   Forall (fun body => exists l', body = l' ++ [CR]) (posted (fst r))).
Proof.
  intros Ht Hl Hr. cbv zeta. rewrite run_stdin_chunks. cbv zeta.
  cbn [fst snd inputBuffer set_inputBuffer]. rewrite sends_posted, Ht.
  destruct (segments_of_lines lines rest Hl Hr) as [-> ->].
  split; [reflexivity|]. split; [reflexivity|]. split.
  - intros l Hin Hnb. apply filter_In. now split.
  - intros H. apply Forall_forall. intros body Hb. apply filter_In in Hb as [Hin Hnb].
    rewrite Forall_forall in H. now apply H.
Qed.

Lemma crlf_lines_keep_carriage_return_witness :
  posted (fst (run echo_runtime
                 (List.map StdinData [[x61; x0d]; [x0a; x0d; x0a; x62; x0a; x63]]%byte)
                 sample_bridge))
  = [[97; CR]; [98]] /\
  inputBuffer (snd (run echo_runtime
                 (List.map StdinData [[x61; x0d]; [x0a; x0d; x0a; x62; x0a; x63]]%byte)
                 sample_bridge))
  = [99].
Proof.
  destruct (crlf_lines_keep_carriage_return echo_runtime sample_bridge
              [x61; x0d]%byte [[x0a; x0d; x0a; x62; x0a; x63]%byte]
              [[97; CR]; [CR]; [98]] [99]) as (H1 & H2 & _).
  - reflexivity.
  - repeat constructor.
  - reflexivity.
  - split; [exact H1 | exact H2].
Defined.

(** C3, as the claim has it, fails: the body posted for the line ["a\r\n"]
    ends in the carriage return. *)
Lemma crlf_body_ends_in_carriage_return :
  posted (fst (on_stdin_data echo_runtime [x61; x0d; x0a]%byte sample_bridge))
  = [[97; CR]] /\
  ~ (forall body,
       In body (posted (fst (on_stdin_data echo_runtime [x61; x0d; x0a]%byte
                               sample_bridge))) ->
       last body 0 <> CR).
Proof.
  split; [reflexivity|].
  intros H. apply (H [97; CR]); [now left | reflexivity].
Qed.

(** C1, at the input on which the code leaves it: a chunk boundary inside
    the two bytes of one character. [chunk.toString()] decodes each chunk on
    its own, so each half becomes a replacement character and the body posted
    is not the line that was sent; fed as one chunk, the same bytes are
    posted as they are. (Between characters the cut does not matter:
    [line_framer_chunk_invariant].) *)
Theorem line_framer_cut_inside_character rt url target n phase :
  let b := mk_bridge url target [] n phase in
  posted (fst (run rt [StdinData [x22; xc3]%byte; StdinData [xa9; x22; x0a]%byte] b))
  = [[34; REPLACEMENT; REPLACEMENT; 34]] /\
  posted (fst (run rt [StdinData [x22; xc3; xa9; x22; x0a]%byte] b))
  = [[34; 0xE9; 34]].
Proof.
  cbv zeta. split.
  - exact (run_stdin_posted rt [[x22; xc3]; [xa9; x22; x0a]]%byte
             (mk_bridge url target [] n phase) eq_refl).
  - exact (run_stdin_posted rt [[x22; xc3; xa9; x22; x0a]]%byte
             (mk_bridge url target [] n phase) eq_refl).
Qed.

(** ** The two relays *)

Section Legacy.

Variable rt : runtime.

Lemma legacy_posted chunk b :
  posted (fst (legacy_on_stdin_data rt chunk b))
  = filter nonblank (split_on NL (Buffer_toString chunk)).
Proof. unfold legacy_on_stdin_data. apply sends_posted. Qed.

Lemma legacy_run_posted chunks : forall b,
  posted (fst (legacy_run rt chunks b))
  = flat_map (fun c => filter nonblank (split_on NL (Buffer_toString c))) chunks.
Proof.
  unfold legacy_run. induction chunks as [|c cs IH]; intros b; [reflexivity|].
  rewrite for_each_cons. cbn [fst snd]. now rewrite posted_app, legacy_posted, IH.
Qed.

End Legacy.

(** C10, at the input on which the earlier variant leaves it: one line that
    arrives in two chunks. The earlier variant posts the two halves as two
    bodies; the buffered relay posts the line. *)
Theorem legacy_relay_cuts_line rt url target n phase :
  let b := mk_bridge url target [] n phase in
  posted (fst (legacy_run rt [[x61; x62]; [x63; x0a]]%byte b)) = [[97; 98]; [99]] /\
  posted (fst (run rt [StdinData [x61; x62]%byte; StdinData [x63; x0a]%byte] b))
  = [[97; 98; 99]].
Proof.
  cbv zeta. split.
  - apply legacy_run_posted.
  - exact (run_stdin_posted rt [[x61; x62]; [x63; x0a]]%byte
             (mk_bridge url target [] n phase) eq_refl).
Qed.

(** ** Reconnection *)

Section Supervisor.

Variable rt : runtime.

Lemma run_stdin_frame chunks : forall b,
  let r := run rt (List.map StdinData chunks) b in
  sse (snd r) = sse b /\ postUrl (snd r) = postUrl b /\ sseUrl (snd r) = sseUrl b /\
  connection_attempts (fst r) = 0%nat.
Proof.
  unfold run. induction chunks as [|c cs IH]; intros b; [simpl; auto|].
  cbv zeta. simpl List.map. rewrite for_each_cons, step_stdin.
  destruct (on_stdin_data_frame rt c b) as (H1 & H2 & H3 & H4 & _).
  cbv zeta in H1, H2, H3, H4.
  destruct (IH (snd (on_stdin_data rt c b))) as (G1 & G2 & G3 & G4).
  cbn [fst snd]. rewrite connection_attempts_app, G1, G2, G3, G4, H1, H2, H3, H4.
  auto.
Qed.

Lemma run_stdin_no_timers chunks : forall b,
  timers_set (fst (run rt (List.map StdinData chunks) b)) = 0%nat.
Proof.
  unfold run. induction chunks as [|c cs IH]; intros b; [reflexivity|].
  simpl List.map. rewrite for_each_cons, step_stdin. cbn [fst snd].
  rewrite timers_set_app, IH, on_stdin_data_spec. cbn [fst].
  now rewrite sends_no_timers.
Qed.

Lemma step_failure i b :
  sse_failure (sse b) i ->
  step rt i b = sse_failed (failure_message i) b.
Proof.
  unfold step. intros H. remember (sse b) as p eqn:Hp.
  destruct H; reflexivity.
Qed.

(** Once [connectSSE] has returned nothing connects again, and no timer is
    set. *)
Lemma returned_is_terminal inputs : forall b,
  sse b = Returned ->
  connection_attempts (fst (run rt inputs b)) = 0%nat /\
  timers_set (fst (run rt inputs b)) = 0%nat /\
  sse (snd (run rt inputs b)) = Returned.
Proof.
  unfold run. induction inputs as [|i inputs IH]; intros b Hb; [simpl; auto|].
  rewrite for_each_cons. cbn [fst snd].
  rewrite connection_attempts_app, timers_set_app.
  assert (Hstep : connection_attempts (fst (step rt i b)) = 0%nat /\
                  timers_set (fst (step rt i b)) = 0%nat /\
                  sse (snd (step rt i b)) = Returned).
  { destruct i; try (unfold step; rewrite Hb; simpl; auto).
    rewrite step_stdin.
    destruct (on_stdin_data_frame rt chunk b) as (H1 & _ & _ & H4 & _).
    cbv zeta in H1, H4. rewrite H1, H4. repeat split; [|exact Hb].
    rewrite on_stdin_data_spec. apply sends_no_timers. }
  destruct Hstep as (H1 & H2 & H3). destruct (IH _ H3) as (G1 & G2 & G3).
  now rewrite H1, H2, G1, G2, G3.
Qed.

End Supervisor.

(** C2, at the input on which the code leaves it: the open stream ends
    without an error ([reader.read()] gives [done]). [connectSSE] leaves its
    loop and returns: nothing is logged and no timer is set, and whatever
    comes next - stdin chunks are still served - no connection attempt is
    made any more. On every other way the SSE side can fail - a status that
    is not a success, a response without a body, a [fetch] that throws, a
    read that throws - the error is logged, a timer of 5000 ms is set, stdin
    is served meanwhile, and when the timer fires the bridge connects to the
    SSE URL again. *)
Theorem clean_stream_end_stops_reconnecting rt :
  (forall b d buf inputs,
     sse b = Streaming d buf ->
     step rt SseDone b = ([], set_sse b Returned) /\
     let r := run rt (SseDone :: inputs) b in
     connection_attempts (fst r) = 0%nat /\ timers_set (fst r) = 0%nat /\
     sse (snd r) = Returned) /\
  (forall b i chunks,
     sse_failure (sse b) i ->
     let r := run rt (i :: List.map StdinData chunks ++ [TimerFired]) b in
     let served := fst (run rt (List.map StdinData chunks) (set_sse b Waiting)) in
     fst r = Stderr (js "[Proxy] SSE Error: " ++ failure_message i) :: SetTimeout 5000
               :: served ++ [Get (sseUrl b)] /\
     connection_attempts served = 0%nat /\ timers_set served = 0%nat /\
     sse (snd r) = Connecting).
Proof.
  split.
  - intros b d buf inputs Hb.
    assert (Hstep : step rt SseDone b = ([], set_sse b Returned)).
    { unfold step. now rewrite Hb. }
    split; [exact Hstep|]. cbv zeta. unfold run. rewrite for_each_cons.
    rewrite Hstep. cbn [fst snd app].
    apply (returned_is_terminal rt inputs (set_sse b Returned) eq_refl).
  - intros b i chunks Hf. cbv zeta. unfold run.
    rewrite for_each_cons, for_each_app, for_each_cons, (step_failure rt i b Hf).
    unfold sse_failed. cbn [fst snd for_each].
    destruct (run_stdin_frame rt chunks (set_sse b Waiting)) as (H1 & _ & H3 & H4).
    pose proof (run_stdin_no_timers rt chunks (set_sse b Waiting)) as H5.
    cbv zeta in H1, H3, H4. unfold run in H1, H3, H4, H5.
    set (r := for_each (step rt) (List.map StdinData chunks) (set_sse b Waiting)) in *.
    simpl in H1, H3.
    assert (Hstep : step rt TimerFired (snd r)
                    = ([Get (sseUrl b)], set_sse (snd r) Connecting)).
    { unfold step. now rewrite H1, H3. }
    rewrite Hstep. cbn [fst snd]. rewrite app_nil_r. auto.
Qed.

Lemma clean_stream_end_stops_reconnecting_witness :
  (let r := run echo_runtime [SseDone; StdinData [x61; x0a]%byte; TimerFired]
              sample_streaming in
   connection_attempts (fst r) = 0%nat /\ timers_set (fst r) = 0%nat /\
   sse (snd r) = Returned) /\
  (let r := run echo_runtime
              [SseReadRejected (js "terminated"); StdinData [x61; x0a]%byte;
               TimerFired] sample_streaming in
   fst r = [Stderr (js "[Proxy] SSE Error: terminated"); SetTimeout 5000;
            Post (postUrl sample_streaming) [97]; Stdout [97; NL];
            Get (sseUrl sample_streaming)] /\
   sse (snd r) = Connecting).
Proof.
  split.
  - apply (proj1 (clean_stream_end_stops_reconnecting echo_runtime) sample_streaming
             new_TextDecoder [] [StdinData [x61; x0a]%byte; TimerFired]).
    reflexivity.
  - destruct (proj2 (clean_stream_end_stops_reconnecting echo_runtime) sample_streaming
                (SseReadRejected (js "terminated")) [[x61; x0a]%byte])
      as (H1 & _ & _ & H4).
    + simpl. constructor.
    + cbv zeta. split; [exact H1 | exact H4].
Defined.

(** ** Endpoint events *)

Lemma js_event_closed : indexOf NL (js "event: ") = None.
Proof. reflexivity. Qed.

Lemma js_data_closed : indexOf NL (js "data: ") = None.
Proof. reflexivity. Qed.

Lemma classify_event name : classify (js "event: " ++ name) = EventLine (trim name).
Proof.
  unfold classify. rewrite startsWith_app.
  change 7%nat with (List.length (js "event: ")). now rewrite slice_from_app.
Qed.

Lemma classify_data d : classify (js "data: " ++ d) = DataLine d.
Proof.
  unfold classify.
  change (startsWith (js "event: ") (js "data: " ++ d)) with false. cbv iota.
  rewrite startsWith_app.
  change 6%nat with (List.length (js "data: ")). now rewrite slice_from_app.
Qed.

(** The lines of a block made of an event line and a data line. *)
Lemma event_data_lines name d :
  indexOf NL name = None -> indexOf NL d = None ->
  split_on NL (js "event: " ++ name ++ [NL] ++ js "data: " ++ d)
  = [js "event: " ++ name; js "data: " ++ d].
Proof.
  intros Hn Hd. rewrite app_assoc.
  change ([NL] ++ js "data: " ++ d) with (NL :: (js "data: " ++ d)).
  rewrite split_on_first, split_on_whole; [reflexivity| |];
    apply indexOf_None_app; auto using js_event_closed, js_data_closed.
Qed.

Lemma startsWith_slash_not_http d :
  startsWith (js "/") d = true -> startsWith (js "http") d = false.
Proof.
  destruct d as [|c d]; [discriminate|]. intros H.
  change (startsWith (js "/") (c :: d)) with ((47 =? c) && true) in H.
  apply andb_true_iff in H as [H _]. apply N.eqb_eq in H. now subst c.
Qed.

Section Endpoint.

Variable rt : runtime.

Lemma step_keeps_target i b :
  retargets i b = false ->
  postUrl (snd (step rt i b)) = postUrl b /\
  Forall (fun u => u = postUrl b) (post_targets (fst (step rt i b))).
Proof.
  intros H. destruct i as [chunk|ok st txt body|m|value| |m|].
  - rewrite step_stdin. destruct (on_stdin_data_frame rt chunk b) as (_ & H2 & _ & _ & H5).
    now split.
  - unfold step. destruct (sse b); try (destruct ok; try destruct body); simpl; auto.
  - unfold step. destruct (sse b); simpl; auto.
  - unfold retargets in H. unfold step. destruct (sse b) as [|d buf| |]; simpl; auto.
    unfold on_sse_read. destruct (frame_events d buf value) as [events [d1 rest]].
    simpl in H.
    pose proof (on_sse_events_plain rt events b H) as Hu.
    pose proof (on_sse_events_only_stdout rt events b) as Hs.
    destruct (for_each (on_sse_event rt) events b) as [tr b']. simpl in *.
    split; [exact Hu|]. apply only_stdout_silent in Hs as [-> _]. constructor.
  - unfold step. destruct (sse b); simpl; auto.
  - unfold step. destruct (sse b); simpl; auto.
  - unfold step. destruct (sse b); simpl; auto.
Qed.

(** Until a read completes another endpoint event, every POST goes to the
    target the bridge holds. *)
Lemma run_keeps_target inputs : forall b,
  never_retargeted rt inputs b = true ->
  postUrl (snd (run rt inputs b)) = postUrl b /\
  Forall (fun u => u = postUrl b) (post_targets (fst (run rt inputs b))).
Proof.
  unfold run. induction inputs as [|i inputs IH]; intros b H; [simpl; auto|].
  simpl in H. apply andb_true_iff in H as [Hi H]. apply negb_true_iff in Hi.
  rewrite for_each_cons. cbn [fst snd].
  destruct (step_keeps_target i b Hi) as [H1 H2].
  destruct (IH _ H) as [G1 G2]. rewrite H1 in G1, G2.
  split; [exact G1|]. rewrite post_targets_app. now apply Forall_app.
Qed.

Lemma on_event_line name flag b :
  trim name = js "endpoint" ->
  on_sse_line rt (js "event: " ++ name) (flag, b) = ([], (true, b)).
Proof.
  intros H. unfold on_sse_line. rewrite classify_event, H. reflexivity.
Qed.

Lemma on_endpoint_data_line d b :
  on_sse_line rt (js "data: " ++ d) (true, b) =
  match endpoint_target rt (sseUrl b) d with
  | Some u => ([], (false, set_postUrl b u))
  | None => (relay rt d, (true, b))
  end.
Proof. unfold on_sse_line. now rewrite classify_data. Qed.

(** An endpoint event: nothing is written, and the data is the new target,
    behind the origin of the SSE URL when it starts with a slash. *)
Lemma on_endpoint_event b name d :
  trim name = js "endpoint" ->
  indexOf NL name = None -> indexOf NL d = None ->
  on_sse_event rt (js "event: " ++ name ++ [NL] ++ js "data: " ++ d) b =
  match endpoint_target rt (sseUrl b) d with
  | Some u => ([], set_postUrl b u)
  | None => (relay rt d, b)
  end.
Proof.
  intros Hname Hn Hd. unfold on_sse_event. rewrite (event_data_lines name d Hn Hd).
  rewrite for_each_cons, (on_event_line name false b Hname). cbn [fst snd].
  rewrite for_each_cons, on_endpoint_data_line.
  destruct (endpoint_target rt (sseUrl b) d); cbn [fst snd for_each app];
    now rewrite ?app_nil_r.
Qed.

End Endpoint.

(** C4. After an [endpoint] event whose data starts with [http], the POSTs
    go to the data as it stands; after one whose data starts with [/], to the
    origin of the SSE URL followed by the data; after any other, to the data
    as it stands. The event writes nothing to the local peer, and the POSTs
    keep that target through every later input, until a read completes
    another endpoint event. *)
Theorem endpoint_event_retargets rt b name d origin :
  trim name = js "endpoint" ->
  indexOf NL name = None -> indexOf NL d = None ->
  url_origin rt (sseUrl b) = Some origin ->
  let r := on_sse_event rt (js "event: " ++ name ++ [NL] ++ js "data: " ++ d) b in
  fst r = [] /\
  (startsWith (js "http") d = true -> postUrl (snd r) = d) /\
  (startsWith (js "/") d = true -> postUrl (snd r) = origin ++ d) /\
  (startsWith (js "http") d = false -> startsWith (js "/") d = false ->
   postUrl (snd r) = d) /\
  (forall inputs,
     never_retargeted rt inputs (snd r) = true ->
     Forall (fun u => u = postUrl (snd r)) (post_targets (fst (run rt inputs (snd r))))).
Proof.
  intros Hname Hn Hd Ho. cbv zeta.
  rewrite (on_endpoint_event rt b name d Hname Hn Hd).
  unfold endpoint_target. rewrite Ho.
  assert (Hrun : forall b', forall inputs,
            never_retargeted rt inputs b' = true ->
            Forall (fun u => u = postUrl b') (post_targets (fst (run rt inputs b')))).
  { intros b' inputs H. now apply run_keeps_target. }
  destruct (startsWith (js "http") d) eqn:E1.
  - cbn [fst snd]. repeat split; auto; try discriminate.
    intros H. apply startsWith_slash_not_http in H. congruence.
  - destruct (startsWith (js "/") d) eqn:E2; cbn [fst snd];
      repeat split; auto; discriminate.
Qed.

Lemma endpoint_event_retargets_witness :
  let r := on_sse_event echo_runtime
             (js "event: endpoint" ++ [NL] ++ js "data: /mcp?sessionId=abc")
             sample_streaming in
  fst r = [] /\
  postUrl (snd r) = sample_origin ++ js "/mcp?sessionId=abc" /\
  post_targets (fst (run echo_runtime [StdinData [x7b; x7d; x0a]%byte] (snd r)))
  = [sample_origin ++ js "/mcp?sessionId=abc"].
Proof.
  destruct (endpoint_event_retargets echo_runtime sample_streaming
              (js "endpoint") (js "/mcp?sessionId=abc") sample_origin
              eq_refl eq_refl eq_refl eq_refl) as (H1 & _ & H3 & _ & H5).
  split; [exact H1|]. split; [exact (H3 eq_refl)|]. reflexivity.
Defined.

(** ** Notifications *)

Lemma relays_spec rt payloads :
  flat_map (relay rt) payloads
  = List.map (fun d => Stdout (d ++ [NL]))
             (filter (fun d => negb (is_suppressed rt d)) payloads).
Proof.
  induction payloads as [|d ds IH]; [reflexivity|].
  simpl. rewrite IH, relay_spec. now destruct (is_suppressed rt d).
Qed.

(** C5. Whatever an event block holds, all that its processing writes to the
    local peer is the payload of one of its data lines, one that is not a
    [connection/ready] or [server/capabilities] notification, followed by a
    newline: a suppressed payload is never written. In a block that does not
    name the endpoint event, every data payload that is not suppressed is
    written as it stands, followed by a newline, whether it parses as JSON or
    not, and nothing else is done. *)
Theorem notifications_suppressed_others_relayed rt event b :
  (forall w, In w (stdout_writes (fst (on_sse_event rt event b))) ->
     exists d, In d (data_payloads event) /\ is_suppressed rt d = false /\
               w = d ++ [NL]) /\
  (names_endpoint event = false ->
     on_sse_event rt event b =
     (List.map (fun d => Stdout (d ++ [NL]))
               (filter (fun d => negb (is_suppressed rt d)) (data_payloads event)),
      b)).
Proof.
  split.
  - apply on_sse_event_writes.
  - intros H. now rewrite on_sse_event_plain, relays_spec.
Qed.

Lemma notifications_suppressed_others_relayed_witness :
  on_sse_event ready_runtime (js "data: " ++ ready_payload) sample_streaming
  = ([], sample_streaming) /\
  on_sse_event ready_runtime (js "data: not json") sample_streaming
  = ([Stdout (js "not json" ++ [NL])], sample_streaming) /\
  exists d, In d (data_payloads (js "data: not json")) /\
            is_suppressed ready_runtime d = false /\
            js "not json" ++ [NL] = d ++ [NL].
Proof.
  split; [|split].
  - apply (proj2 (notifications_suppressed_others_relayed ready_runtime
                    (js "data: " ++ ready_payload) sample_streaming)).
    reflexivity.
  - apply (proj2 (notifications_suppressed_others_relayed ready_runtime
                    (js "data: not json") sample_streaming)).
    reflexivity.
  - apply (proj1 (notifications_suppressed_others_relayed ready_runtime
                    (js "data: not json") sample_streaming)).
    simpl. now left.
Defined.

(** ** Output framing *)

Section Output.

Variable rt : runtime.






End Output.




(** ** The event framer *)

(** C7. If the decoded stream is [k] event blocks, each closed by a blank
    line, followed by a text with no blank line in it, then the reads of the
    connection - however the bytes are cut into reads, a cut inside the blank
    line or inside a character included - complete exactly these [k] blocks,
    in order, and the text after the last blank line is what the buffer
    holds for the next read. A block made of an event line and a data line is
    taken apart into the name, trimmed, and the data. *)
Theorem event_framer_chunk_invariant values events rest :
  Forall (fun e => block_like e = true) events ->
  split_blank rest = [rest] ->
  snd (decode_stream new_TextDecoder (List.concat values))
  = List.concat (List.map (fun e => e ++ [NL; NL]) events) ++ rest ->
  fst (read_all new_TextDecoder [] values) = events /\
  snd (snd (read_all new_TextDecoder [] values)) = rest /\
  (forall name d,
     indexOf NL name = None -> indexOf NL d = None ->
     List.map classify (split_on NL (js "event: " ++ name ++ [NL] ++ js "data: " ++ d))
     = [EventLine (trim name); DataLine d]).
Proof.
  intros He Hr Ht. rewrite (read_all_spec values new_TextDecoder [] eq_refl).
  cbn [fst snd]. rewrite !app_nil_l, Ht.
  destruct (blocks_of_events events rest He Hr) as [H1 H2].
  split; [exact H1|]. split; [exact H2|].
  intros name d Hn Hd. rewrite (event_data_lines name d Hn Hd). cbn [List.map].
  now rewrite classify_event, classify_data.
Qed.

Lemma event_framer_chunk_invariant_witness :
  fst (read_all new_TextDecoder []
         [[x64; x61; x74; x61; x3a; x20; xc3]; [xa9; x0a]; [x0a; x3a]]%byte)
  = [js "data: " ++ [0xE9]] /\
  snd (snd (read_all new_TextDecoder []
              [[x64; x61; x74; x61; x3a; x20; xc3]; [xa9; x0a]; [x0a; x3a]]%byte))
  = js ":" /\
  List.map classify
    (split_on NL (js "event: " ++ js " endpoint " ++ [NL] ++ js "data: " ++ js "/mcp"))
  = [EventLine (trim (js " endpoint ")); DataLine (js "/mcp")].
Proof.
  destruct (event_framer_chunk_invariant
              [[x64; x61; x74; x61; x3a; x20; xc3]; [xa9; x0a]; [x0a; x3a]]%byte
              [js "data: " ++ [0xE9]] (js ":")) as (H1 & H2 & H3).
  - repeat constructor.
  - reflexivity.
  - reflexivity.
  - split; [exact H1|]. split; [exact H2|].
    apply (H3 (js " endpoint ") (js "/mcp")); reflexivity.
Defined.

(** ** Failures of a POST *)



(** * Further properties *)

(** ** The stdin handler, one activation *)

(** X1. The stdin handler loses and invents no text: what was in the buffer
    and the text of the chunk are the lines the handler took off, each with
    its newline, and what it leaves in the buffer; the bodies posted are the
    lines that are not blank; the buffer it leaves holds no newline. *)
Theorem stdin_handler_conserves_text rt chunk b :
  exists lines,
    inputBuffer b ++ Buffer_toString chunk
    = List.concat (List.map (fun l => l ++ [NL]) lines)
        ++ inputBuffer (snd (on_stdin_data rt chunk b)) /\
    Forall (fun l => indexOf NL l = None) lines /\
    indexOf NL (inputBuffer (snd (on_stdin_data rt chunk b))) = None /\
    posted (fst (on_stdin_data rt chunk b)) = filter nonblank lines.
Proof.
  rewrite on_stdin_data_spec. cbn [fst snd inputBuffer set_inputBuffer].
  set (text := inputBuffer b ++ Buffer_toString chunk).
  exists (segments text). repeat split.
  - symmetry. apply (join_complete_partial _ _ (split_on_splits NL)).
  - apply Forall_forall. intros l. apply segments_pieces.
  - apply open_segment_closed.
  - apply sends_posted.
Qed.

(** ** Invariants of the machine *)

Section Invariants.

Variable rt : runtime.

Lemma on_sse_read_frame d buf value b :
  let r := on_sse_read rt d buf value b in
  only_stdout (fst r) /\
  sseUrl (snd r) = sseUrl b /\ inputBuffer (snd r) = inputBuffer b /\
  exists d' rest, sse (snd r) = Streaming d' rest /\ split_blank rest = [rest].
Proof.
  cbv zeta. unfold on_sse_read, frame_events, pop.
  destruct (decode_stream d value) as [d1 chunk0].
  set (events := removelast (split_blank (buf ++ chunk0))).
  pose proof (on_sse_events_only_stdout rt events b) as Hs.
  destruct (on_sse_events_frame rt events b) as (H1 & H2 & _ & _).
  destruct (for_each (on_sse_event rt) events b) as [tr b'].
  cbn [fst snd] in *. repeat split; auto.
  exists d1, (last (split_blank (buf ++ chunk0)) []). split; [reflexivity|].
  apply open_block_whole.
Qed.

(** What the SSE side and the timer do: no POST, the input buffer and the
    SSE URL as they were, and no blank line left in the buffer of the
    stream. *)
Lemma step_sse_side i b :
  (forall chunk, i <> StdinData chunk) ->
  posted (fst (step rt i b)) = [] /\
  inputBuffer (snd (step rt i b)) = inputBuffer b /\
  sseUrl (snd (step rt i b)) = sseUrl b /\
  (sse_framed b -> sse_framed (snd (step rt i b))).
Proof.
  intros Hi. unfold sse_framed.
  destruct i as [chunk|ok st txt body|m|value| |m|].
  - now elim (Hi chunk).
  - unfold step.
    destruct (sse b) eqn:E; try (destruct ok; try destruct body); simpl;
      rewrite ?E; intuition auto.
  - unfold step. destruct (sse b) eqn:E; simpl; rewrite ?E; intuition auto.
  - destruct (sse b) as [|d buf| |] eqn:E.
    2: { rewrite (step_sse_read rt value d buf b E).
         destruct (on_sse_read_frame d buf value b)
           as (Hs & H1 & H2 & d' & rest & H3 & H4).
         cbv zeta in Hs, H1, H2, H3. rewrite H1, H2, H3.
         apply only_stdout_silent in Hs as (_ & Hp & _). auto. }
    all: unfold step; rewrite E; simpl; rewrite ?E; auto.
  - unfold step. destruct (sse b) eqn:E; simpl; rewrite ?E; intuition auto.
  - unfold step. destruct (sse b) eqn:E; simpl; rewrite ?E; intuition auto.
  - unfold step. destruct (sse b) eqn:E; simpl; rewrite ?E; intuition auto.
Qed.


End Invariants.

(** ** Activations that overlap *)

(** The first line of a list that is sent, and the lines after it, among the
    non-blank lines of the list. *)
Lemma legacy_next_line_filter lines :
  match legacy_next_line lines with
  | Some (line, lines') =>
      filter nonblank lines = line :: filter nonblank lines' /\
      forall l, In l lines' -> In l lines
  | None => filter nonblank lines = []
  end.
Proof.
  induction lines as [|l ls IH]; [reflexivity|].
  cbn [legacy_next_line filter]. change (nonblank l) with (truthy (trim l)).
  destruct (truthy (trim l)) eqn:E.
  - split; [reflexivity | intros x Hx; now right].
  - destruct (legacy_next_line ls) as [[line lines']|]; [|exact IH].
    destruct IH as [IH1 IH2]. split; [exact IH1 | intros x Hx; right; auto].
Qed.

(** The loop of proxy.js on its buffer does what the loop of the earlier
    variant does on the segments of that buffer. *)
Lemma next_line_spec fuel : forall buffer,
  (List.length buffer < fuel)%nat ->
  next_line fuel buffer =
  match legacy_next_line (segments buffer) with
  | Some (line, lines') =>
      (Some line,
       List.concat (List.map (fun l => l ++ [NL]) lines') ++ open_segment buffer)
  | None => (None, open_segment buffer)
  end.
Proof.
  induction fuel as [|fuel IH]; intros buffer Hlen; [lia|].
  cbn [next_line]. destruct (indexOf NL buffer) as [i|] eqn:E.
  - destruct (indexOf_Some _ _ _ E) as [Hline Hbuf].
    destruct (complete_partial_first (split_on NL) [NL] (split_on_splits NL)
                (slice_to i buffer) (slice_from (i + 1) buffer)) as [Hc Hp].
    { simpl. now apply split_on_first. }
    simpl in Hc, Hp. rewrite <- Hbuf in Hc, Hp.
    fold segments in Hc. fold open_segment in Hp. rewrite Hc, Hp.
    cbn [legacy_next_line]. destruct (truthy (trim (slice_to i buffer))).
    + f_equal. symmetry. apply (join_complete_partial _ _ (split_on_splits NL)).
    + apply IH. unfold slice_from. rewrite length_skipn.
      assert (0 < List.length buffer)%nat; [|lia].
      rewrite Hbuf, length_app. simpl. lia.
  - destruct (segments_closed _ E) as [-> ->]. reflexivity.
Qed.

Lemma enter_loop_spec b awaited :
  enter_loop b awaited =
  match legacy_next_line (segments (inputBuffer b)) with
  | Some (line, lines') =>
      ([Post (postUrl b) line],
       mk_process
         (count_post
            (set_inputBuffer b (List.concat (List.map (fun l => l ++ [NL]) lines')
                                  ++ open_segment (inputBuffer b))))
         (awaited ++ [posts_made b]))
  | None => ([], mk_process (set_inputBuffer b (open_segment (inputBuffer b))) awaited)
  end.
Proof.
  unfold enter_loop. rewrite next_line_spec by lia.
  now destruct (legacy_next_line (segments (inputBuffer b))) as [[line lines']|].
Qed.

(** What entering the loop takes off the buffer is what it posts. *)
Lemma enter_loop_posts b awaited :
  let r := enter_loop b awaited in
  filter nonblank (segments (inputBuffer b))
  = posted (fst r) ++ filter nonblank (segments (inputBuffer (state (snd r)))) /\
  open_segment (inputBuffer b) = open_segment (inputBuffer (state (snd r))) /\
  (in_flight (snd r) = [] -> indexOf NL (inputBuffer (state (snd r))) = None) /\
  sse (state (snd r)) = sse b /\ sseUrl (state (snd r)) = sseUrl b.
Proof.
  cbv zeta. rewrite enter_loop_spec.
  pose proof (legacy_next_line_filter (segments (inputBuffer b))) as Hf.
  destruct (legacy_next_line (segments (inputBuffer b))) as [[line lines']|] eqn:E.
  - destruct Hf as [Hf Hsub].
    cbn [fst snd state in_flight inputBuffer count_post set_inputBuffer sse sseUrl
         posted flat_map app].
    destruct (segments_of_lines lines' (open_segment (inputBuffer b))) as [H1 H2].
    { apply Forall_forall. intros l Hl. apply (segments_pieces (inputBuffer b)). auto. }
    { apply open_segment_closed. }
    rewrite H1, H2, Hf. repeat split; auto.
    intros H. now destruct awaited.
  - cbn [fst snd state in_flight inputBuffer set_inputBuffer sse sseUrl
         posted flat_map app].
    destruct (segments_closed _ (open_segment_closed (inputBuffer b))) as [H1 H2].
    rewrite H1, H2, Hf. repeat split; auto.
    intros _. apply open_segment_closed.
Qed.

Lemma on_post_settled_silent o :
  posted (on_post_settled o) = [].
Proof.
  destruct o as [m|s [text|m]]; try reflexivity.
  simpl. now destruct (truthy text && truthy (trim text)).
Qed.

Section OverlapFacts.

Variable rt : runtime.

#[local] Abbreviation joined lines rest :=
  (List.concat (List.map (fun l => l ++ [NL]) lines) ++ rest).

Lemma received_cons e events :
  received (e :: events) = received [e] ++ received events.
Proof. unfold received. simpl. now rewrite app_nil_r. Qed.

Lemma received_chunks events :
  received events = List.concat (List.map Buffer_toString (chunks_of events)).
Proof.
  induction events as [|e es IH]; [reflexivity|].
  rewrite received_cons, IH. unfold received, chunks_of.
  destruct e as [[chunk| | | | | |]|n o]; simpl; now rewrite ?app_nil_r.
Qed.

(** One event: the text that has come in, against what has been posted and
    what the buffer holds. *)
Lemma overlap_step_posts e p :
  let r := overlap_step rt e p in
  let text := inputBuffer (state p) ++ received [e] in
  filter nonblank (segments text)
  = posted (fst r) ++ filter nonblank (segments (inputBuffer (state (snd r)))) /\
  open_segment text = open_segment (inputBuffer (state (snd r))).
Proof.
  cbv zeta.
  assert (Hside : forall i, (forall c, i <> StdinData c) ->
            let r := step rt i (state p) in
            filter nonblank (segments (inputBuffer (state p) ++ []))
            = posted (fst r) ++ filter nonblank (segments (inputBuffer (snd r))) /\
            open_segment (inputBuffer (state p) ++ []) = open_segment (inputBuffer (snd r))).
  { intros i Hi. cbv zeta. destruct (step_sse_side rt i (state p) Hi) as (H1 & H2 & _).
    rewrite H1, H2, app_nil_r. auto. }
  destruct e as [i|n o].
  - destruct i as [chunk|ok st txt body|m|value| |m|].
    1: { unfold overlap_step, received. cbn [List.map List.concat].
         rewrite app_nil_r.
         destruct (enter_loop_posts
                     (set_inputBuffer (state p)
                        (inputBuffer (state p) ++ Buffer_toString chunk))
                     (in_flight p)) as (H1 & H2 & _).
         cbv zeta in H1, H2. cbn [inputBuffer set_inputBuffer] in H1, H2. auto. }
    all: unfold received; cbn [List.map List.concat];
      unfold overlap_step;
      match goal with
      | |- context [step rt ?i (state ?q)] =>
          specialize (Hside i ltac:(intros c; discriminate)); cbv zeta in Hside;
          destruct (step rt i (state p)) as [tr b']
      end; exact Hside.
  - unfold received. cbn [List.map List.concat]. rewrite !app_nil_r.
    unfold overlap_step. destruct (existsb (Nat.eqb n) (in_flight p)).
    + destruct (enter_loop_posts (state p) (remove Nat.eq_dec n (in_flight p)))
        as (H1 & H2 & _).
      cbv zeta in H1, H2.
      destruct (enter_loop (state p) (remove Nat.eq_dec n (in_flight p))) as [tr p'].
      cbn [fst snd] in *. rewrite posted_app, on_post_settled_silent. auto.
    + cbn [fst snd posted flat_map app]. auto.
Qed.

(** The same over a run. *)
Lemma overlap_run_posts events : forall p,
  let r := overlap_run rt events p in
  let text := inputBuffer (state p) ++ received events in
  filter nonblank (segments text)
  = posted (fst r) ++ filter nonblank (segments (inputBuffer (state (snd r)))) /\
  open_segment text = open_segment (inputBuffer (state (snd r))).
Proof.
  unfold overlap_run. induction events as [|e es IH]; intros p; cbv zeta.
  - simpl. rewrite app_nil_r. auto.
  - rewrite for_each_cons, received_cons. cbn [fst snd].
    destruct (overlap_step_posts e p) as [H1 H2]. cbv zeta in H1, H2.
    destruct (IH (snd (overlap_step rt e p))) as [G1 G2]. cbv zeta in G1, G2.
    set (p1 := snd (overlap_step rt e p)) in *.
    set (t1 := inputBuffer (state p) ++ received [e]) in *.
    rewrite app_assoc. fold t1.
    destruct (framing_app _ _ (split_on_splits NL) t1 (received es)) as [Hc Hp].
    destruct (framing_app _ _ (split_on_splits NL) (inputBuffer (state p1)) (received es))
      as [Hc1 Hp1].
    change (complete (split_on NL)) with segments in Hc, Hc1.
    change (partial (split_on NL)) with open_segment in Hc, Hp, Hc1, Hp1.
    rewrite Hc, Hp, filter_app, H1, H2. rewrite Hc1, filter_app in G1.
    rewrite Hp1 in G2. split; [|exact G2].
    rewrite posted_app, <- !app_assoc. f_equal. exact G1.
Qed.

Lemma overlap_step_framed e p :
  let p' := snd (overlap_step rt e p) in
  (quiet p -> quiet p') /\
  (sse_framed (state p) -> sse_framed (state p')) /\
  sseUrl (state p') = sseUrl (state p).
Proof.
  cbv zeta. unfold quiet. destruct e as [i|n o].
  - destruct i as [chunk|ok st txt body|m|value| |m|].
    1: { unfold overlap_step.
         destruct (enter_loop_posts
                     (set_inputBuffer (state p)
                        (inputBuffer (state p) ++ Buffer_toString chunk))
                     (in_flight p)) as (_ & _ & H3 & H4 & H5).
         cbv zeta in H3, H4, H5. unfold sse_framed. rewrite H4, H5. auto. }
    all: unfold overlap_step;
      match goal with
      | |- context [step rt ?i (state ?q)] =>
          destruct (step_sse_side rt i (state q) ltac:(intros c; discriminate))
            as (_ & H2 & H3 & H4);
          destruct (step rt i (state q)) as [tr b']
      end; cbn [fst snd state in_flight] in *; rewrite H2; auto.
  - unfold overlap_step. destruct (existsb (Nat.eqb n) (in_flight p)).
    + destruct (enter_loop_posts (state p) (remove Nat.eq_dec n (in_flight p)))
        as (_ & _ & H3 & H4 & H5).
      cbv zeta in H3, H4, H5.
      destruct (enter_loop (state p) (remove Nat.eq_dec n (in_flight p))) as [tr p'].
      cbn [fst snd] in *. unfold sse_framed. rewrite H4, H5. auto.
    + cbn [snd]. auto.
Qed.

Lemma overlap_run_framed events : forall p,
  let p' := snd (overlap_run rt events p) in
  (quiet p -> quiet p') /\
  (sse_framed (state p) -> sse_framed (state p')) /\
  sseUrl (state p') = sseUrl (state p).
Proof.
  unfold overlap_run. induction events as [|e es IH]; intros p; [simpl; auto|].
  cbv zeta. rewrite for_each_cons. cbn [fst snd].
  destruct (overlap_step_framed e p) as (H1 & H2 & H3). cbv zeta in H1, H2, H3.
  destruct (IH (snd (overlap_step rt e p))) as (G1 & G2 & G3). cbv zeta in G1, G2, G3.
  repeat split; auto. now rewrite G3.
Qed.

Lemma forward_line_settled line b :
  forward_line rt line b =
  (Post (postUrl b) line :: on_post_settled (remote rt (posts_made b) (postUrl b) line),
   count_post b).
Proof.
  unfold forward_line, on_post_settled.
  now destruct (remote rt (posts_made b) (postUrl b) line) as [m|s [text|m]].
Qed.

Lemma enter_loop_closed b rest awaited :
  indexOf NL rest = None ->
  enter_loop (set_inputBuffer b rest) awaited
  = ([], mk_process (set_inputBuffer b rest) awaited).
Proof.
  intros Hr. rewrite enter_loop_spec. cbn [inputBuffer set_inputBuffer].
  destruct (segments_closed _ Hr) as [-> ->]. reflexivity.
Qed.

Lemma enter_loop_first b l lines rest awaited :
  Forall (fun l => indexOf NL l = None) (l :: lines) ->
  indexOf NL rest = None ->
  enter_loop (set_inputBuffer b (joined (l :: lines) rest)) awaited
  = if truthy (trim l)
    then ([Post (postUrl b) l],
          mk_process (set_inputBuffer (count_post b) (joined lines rest))
                     (awaited ++ [posts_made b]))
    else enter_loop (set_inputBuffer b (joined lines rest)) awaited.
Proof.
  intros Hl Hr. inversion Hl as [|l0 ls0 Hl1 Hl2]; subst l0 ls0.
  destruct (segments_of_lines (l :: lines) rest Hl Hr) as [Hs Ho].
  destruct (segments_of_lines lines rest Hl2 Hr) as [Hs' Ho'].
  rewrite !enter_loop_spec. cbn [inputBuffer set_inputBuffer].
  rewrite Hs, Ho, Hs', Ho'. cbn [legacy_next_line].
  destruct (truthy (trim l)); [reflexivity|].
  now destruct (legacy_next_line lines) as [[line lines']|].
Qed.

Lemma overlap_step_settled n o b :
  overlap_step rt (PostSettled n o) (mk_process b [n])
  = (on_post_settled o ++ fst (enter_loop b []), snd (enter_loop b [])).
Proof.
  unfold overlap_step. cbn [in_flight state existsb remove].
  rewrite Nat.eqb_refl. cbn [orb].
  destruct (Nat.eq_dec n n) as [_|Hne]; [|now elim Hne].
  now destruct (enter_loop b []).
Qed.

(** The lines of a buffer, their POSTs settled one after the other as soon
    as they are made: what the loop of [step] does. *)
Lemma settled_at_once_spec lines : forall b rest,
  Forall (fun l => indexOf NL l = None) lines ->
  indexOf NL rest = None ->
  let entered := enter_loop (set_inputBuffer b (joined lines rest)) [] in
  let r := overlap_run rt (settled_at_once rt lines b) (snd entered) in
  fst entered ++ fst r = fst (for_each (send_if_nonblank rt) lines b) /\
  snd r = mk_process
            (set_inputBuffer (snd (for_each (send_if_nonblank rt) lines b)) rest) [].
Proof.
  induction lines as [|l ls IH]; intros b rest Hl Hr; cbv zeta.
  - cbn [List.map List.concat app]. rewrite (enter_loop_closed _ _ _ Hr).
    split; reflexivity.
  - inversion Hl as [|l0 ls0 Hl1 Hl2]; subst l0 ls0.
    rewrite (enter_loop_first b l ls rest [] Hl Hr).
    cbn [settled_at_once]. rewrite for_each_cons.
    change (send_if_nonblank rt l b)
      with (if truthy (trim l) then forward_line rt l b else ([], b)).
    destruct (truthy (trim l)) eqn:E.
    + rewrite forward_line_settled. unfold overlap_run. rewrite for_each_cons.
      cbn [fst snd app]. rewrite overlap_step_settled. cbn [fst snd].
      destruct (IH (count_post b) rest Hl2 Hr) as [IH1 IH2].
      unfold overlap_run in IH1, IH2. rewrite IH2, <- IH1.
      split; [|reflexivity]. now rewrite <- app_assoc.
    + cbn [fst snd app]. exact (IH b rest Hl2 Hr).
Qed.

End OverlapFacts.

(** X2. At every point of every run that starts from [startup], in whatever
    order chunks arrive, POSTs are settled and the SSE side moves: the input
    buffer holds a newline only while an activation of the stdin handler is
    suspended at its [fetch], which takes the line when it goes on; the
    buffer of the open SSE stream holds no blank line; and the SSE URL is
    the one given at startup. *)
Theorem buffers_hold_no_complete_unit rt argv tr b events :
  startup argv = (tr, Some b) ->
  let p := snd (overlap_run rt events (mk_process b [])) in
  well_framed p /\ Some (sseUrl (state p)) = argv_at argv 2.
Proof.
  intros Hstart. cbv zeta.
  assert (H0 : inputBuffer b = [] /\ sse b = Connecting /\
               Some (sseUrl b) = argv_at argv 2).
  { unfold startup in Hstart. destruct (argv_at argv 2) as [u|]; [|discriminate].
    destruct (truthy u); [|discriminate]. injection Hstart as _ <-.
    repeat split. }
  destruct H0 as (Hbuf & Hsse & Hurl).
  destruct (overlap_run_framed rt events (mk_process b [])) as (H1 & H2 & H3).
  cbv zeta in H1, H2, H3. cbn [state] in H2, H3. rewrite H3. split; [|exact Hurl].
  split.
  - apply H1. intros _. cbn [state]. now rewrite Hbuf.
  - apply H2. unfold sse_framed. now rewrite Hsse.
Qed.

Lemma buffers_hold_no_complete_unit_witness :
  well_framed
    (snd (overlap_run echo_runtime
            [Arrives (SseResponded true 200 (js "OK") BodyStream);
             Arrives (StdinData [x61; x0a; x62; x0a; x63]%byte);
             Arrives (SseRead [x64; x0a; x0a; x65; x0a]%byte);
             PostSettled 0 (Responded 200 (Text (js "a")))]
            (mk_process sample_bridge []))).
Proof.
  apply (buffers_hold_no_complete_unit echo_runtime
           [js "node"; js "proxy.js"; sample_origin ++ js "/sse"]
           [Get (sample_origin ++ js "/sse")] sample_bridge).
  reflexivity.
Defined.

(** X17. Activations that overlap post the lines in the order of the input.
    In every run, whatever the order in which chunks arrive and POSTs are
    settled: the bodies posted so far, followed by the non-blank lines still
    in the buffer, are the non-blank newline-terminated segments of the text
    received. When no activation is suspended at the end, the bodies posted
    are all of these segments, and they are what the machine that runs every
    activation to its end posts for the same chunks. *)
Theorem overlapping_activations_post_in_order rt events p :
  let r := overlap_run rt events p in
  let text := inputBuffer (state p) ++ received events in
  filter nonblank (segments text)
  = posted (fst r) ++ filter nonblank (segments (inputBuffer (state (snd r)))) /\
  (indexOf NL (inputBuffer (state p)) = None ->
   in_flight (snd r) = [] ->
   posted (fst r) = filter nonblank (segments text) /\
   posted (fst r)
   = posted (fst (run rt (List.map StdinData (chunks_of events)) (state p)))).
Proof.
  cbv zeta. destruct (overlap_run_posts rt events p) as [H1 _]. cbv zeta in H1.
  split; [exact H1|]. intros Hp Hend.
  destruct (overlap_run_framed rt events p) as (Hq & _). cbv zeta in Hq.
  assert (Hclosed : indexOf NL (inputBuffer (state (snd (overlap_run rt events p)))) = None).
  { apply Hq; [intros _; exact Hp | exact Hend]. }
  destruct (segments_closed _ Hclosed) as [Hs _]. rewrite Hs, app_nil_r in H1.
  split; [now symmetry|].
  rewrite (run_stdin_posted rt _ _ Hp), <- received_chunks. now symmetry.
Qed.

Lemma overlapping_activations_post_in_order_witness :
  posted (fst (overlap_run echo_runtime
                 [Arrives (StdinData [x61; x0a; x62; x0a]%byte);
                  Arrives (StdinData [x63; x0a]%byte);
                  PostSettled 1 (Responded 200 (Text (js "b")));
                  PostSettled 0 (Responded 200 (Text (js "a")));
                  PostSettled 2 (FetchRejects (js "fetch failed"))]
                 (mk_process sample_bridge [])))
  = [[97]; [98]; [99]].
Proof.
  apply (proj2 (overlapping_activations_post_in_order echo_runtime
                  [Arrives (StdinData [x61; x0a; x62; x0a]%byte);
                   Arrives (StdinData [x63; x0a]%byte);
                   PostSettled 1 (Responded 200 (Text (js "b")));
                   PostSettled 0 (Responded 200 (Text (js "a")));
                   PostSettled 2 (FetchRejects (js "fetch failed"))]
                  (mk_process sample_bridge []))); reflexivity.
Defined.

(** X18. The machine that runs every activation to its end is the machine
    with overlapping activations on one of its schedules: the chunk arrives,
    and the POST of each line is settled, with the outcome the remote gives
    it, before anything else happens. *)
Theorem step_is_a_schedule rt chunk b :
  overlap_run rt (chunk_at_once rt chunk b) (mk_process b [])
  = (fst (step rt (StdinData chunk) b),
     mk_process (snd (step rt (StdinData chunk) b)) []).
Proof.
  rewrite step_stdin, on_stdin_data_spec. cbn [fst snd].
  set (text := inputBuffer b ++ Buffer_toString chunk).
  unfold chunk_at_once, overlap_run. rewrite for_each_cons. fold text.
  unfold overlap_step at 1 3. cbn [state in_flight].
  fold text.
  destruct (settled_at_once_spec rt (segments text) b (open_segment text)) as [H1 H2].
  { apply Forall_forall. intros l. apply segments_pieces. }
  { apply open_segment_closed. }
  cbv zeta in H1, H2.
  pose proof (join_complete_partial _ _ (split_on_splits NL) text) as Hjoin.
  change (complete (split_on NL)) with segments in Hjoin.
  change (partial (split_on NL)) with open_segment in Hjoin.
  rewrite Hjoin in H1, H2. unfold overlap_run in H1, H2.
  rewrite <- H1, <- H2. reflexivity.
Qed.


(** ** Chunks cut between characters *)

Lemma ascii_run chunk :
  forallb is_ascii chunk = true ->
  utf8_run utf8_init chunk = (utf8_init, List.map Byte.to_N chunk).
Proof.
  induction chunk as [|c cs IH]; intros H; [reflexivity|].
  simpl in H. apply andb_true_iff in H as [Hc H].
  unfold is_ascii in Hc. apply N.ltb_lt in Hc.
  simpl. unfold utf8_step at 1. simpl needed. cbv iota.
  change (0 =? 0) with true. cbv iota. unfold utf8_lead.
  rewrite (proj2 (N.leb_le _ _)) by lia.
  now rewrite (IH H).
Qed.

(** X4. A chunk of ASCII bytes is decoded byte for byte; and when every chunk
    ends where a character ends - any cut of an ASCII stream does - the
    bodies posted are the non-blank newline-terminated segments of the whole
    input, in order, however it is cut into chunks. *)
Theorem line_framer_between_characters rt :
  (forall chunk,
     forallb is_ascii chunk = true ->
     Buffer_toString chunk = List.map Byte.to_N chunk /\
     ends_on_boundary chunk = true) /\
  (forall chunks b,
     inputBuffer b = [] ->
     Forall (fun c => ends_on_boundary c = true) chunks ->
     posted (fst (run rt (List.map StdinData chunks) b))
     = filter nonblank (segments (Buffer_toString (List.concat chunks)))).
Proof.
  split.
  - intros chunk H. unfold Buffer_toString, ends_on_boundary.
    rewrite (ascii_run chunk H). simpl. now rewrite app_nil_r.
  - intros chunks b Hb Hc. rewrite run_stdin_posted by now rewrite Hb.
    rewrite Hb. simpl. now rewrite (proj2 (Buffer_toString_concat _ Hc)).
Qed.

Lemma line_framer_between_characters_witness :
  Buffer_toString [x7b; x7d; x0a]%byte = [123; 125; 10] /\
  posted (fst (run echo_runtime
                 (List.map StdinData [[x7b]; [x7d; x0a; x20]; [x0a; x5b; x5d; x0a]]%byte)
                 sample_bridge))
  = [[123; 125]; [91; 93]].
Proof.
  split.
  - apply (proj1 (line_framer_between_characters echo_runtime) [x7b; x7d; x0a]%byte).
    reflexivity.
  - apply (proj2 (line_framer_between_characters echo_runtime)
             [[x7b]; [x7d; x0a; x20]; [x0a; x5b; x5d; x0a]]%byte sample_bridge).
    + reflexivity.
    + repeat constructor.
Defined.

(** ** One line, one exchange *)

Section Exchanges.

Variable rt : runtime.

Lemma forward_line_exchange line b : exchange (fst (forward_line rt line b)).
Proof.
  unfold forward_line.
  destruct (remote rt (posts_made b) (postUrl b) line) as [m|st [text|m]];
    try constructor.
  simpl. destruct (truthy text && truthy (trim text)); constructor.
Qed.

Lemma sends_exchanges lines : forall b,
  exists groups,
    fst (for_each (send_if_nonblank rt) lines b) = List.concat groups /\
    Forall exchange groups.
Proof.
  induction lines as [|l ls IH]; intros b.
  - exists []. split; [reflexivity | constructor].
  - rewrite for_each_cons. cbn [fst snd].
    destruct (IH (snd (send_if_nonblank rt l b))) as (gs & Hg & Hex).
    unfold send_if_nonblank at 1. destruct (truthy (trim l)).
    + exists (fst (forward_line rt l b) :: gs). simpl. rewrite Hg.
      split; [reflexivity|]. constructor; [apply forward_line_exchange | exact Hex].
    + exists gs. now split.
Qed.

(** The sender does not look at the SSE side either. *)
Lemma sends_sse lines : forall b p,
  for_each (send_if_nonblank rt) lines (set_sse b p) =
  (fst (for_each (send_if_nonblank rt) lines b),
   set_sse (snd (for_each (send_if_nonblank rt) lines b)) p).
Proof.
  induction lines as [|l ls IH]; intros b p; [reflexivity|].
  rewrite !for_each_cons.
  assert (H : send_if_nonblank rt l (set_sse b p) =
              (fst (send_if_nonblank rt l b), set_sse (snd (send_if_nonblank rt l b)) p)).
  { unfold send_if_nonblank. destruct (truthy (trim l)); [|reflexivity].
    unfold forward_line. simpl.
    destruct (remote rt (posts_made b) (postUrl b) l) as [m|st [text|m]];
      reflexivity. }
  rewrite H. cbn [fst snd]. now rewrite IH.
Qed.

End Exchanges.

(** X5. What the stdin handler does for one chunk is a sequence of exchanges,
    one for each line it sends and in their order: the POST, followed by
    nothing, or by the answer on standard output, or by the error on the
    diagnostic channel - never both, and never a connection attempt, a timer
    or an exit. *)
Theorem stdin_trace_is_exchanges rt chunk b :
  exists groups,
    fst (on_stdin_data rt chunk b) = List.concat groups /\
    Forall exchange groups /\
    List.length groups = List.length (posted (fst (on_stdin_data rt chunk b))).
Proof.
  rewrite on_stdin_data_spec. cbn [fst].
  destruct (sends_exchanges rt
              (segments (inputBuffer b ++ Buffer_toString chunk)) b)
    as (gs & Hg & Hex).
  exists gs. split; [exact Hg|]. split; [exact Hex|].
  rewrite Hg. clear Hg. induction Hex as [|g gs Hg _ IH]; [reflexivity|].
  simpl. rewrite posted_app, length_app, <- IH.
  destruct Hg; reflexivity.
Qed.

(** X6. The stdin side does not depend on the SSE side: in whatever phase
    the SSE connection is - connecting, streaming, waiting to retry, or
    returned for good - a chunk has the same effects and leaves the phase as
    it was. *)
Theorem stdin_ignores_sse_phase rt chunk b p :
  step rt (StdinData chunk) (set_sse b p)
  = (fst (step rt (StdinData chunk) b), set_sse (snd (step rt (StdinData chunk) b)) p).
Proof.
  rewrite !step_stdin, !on_stdin_data_spec. cbn [fst snd inputBuffer set_sse].
  rewrite sends_sse. reflexivity.
Qed.

(** ** Writes of the SSE reader *)

(** X7. Every write to standard output that a read of the SSE stream causes
    holds exactly one newline, and that is its last unit. *)
Theorem sse_write_holds_one_newline rt d buf value b w :
  In w (stdout_writes (fst (on_sse_read rt d buf value b))) ->
  count_occ N.eq_dec w NL = 1%nat /\ last w 0 = NL.
Proof.
  unfold on_sse_read. destruct (frame_events d buf value) as [events [d1 rest]].
  pose proof (on_sse_events_writes rt events b w) as H.
  destruct (for_each (on_sse_event rt) events b) as [tr b']. cbn [fst].
  intros Hw. destruct (H Hw) as (e & p & _ & Hp & _ & ->).
  apply data_payload_closed, indexOf_None_In in Hp.
  rewrite count_occ_app, last_last. split; [|reflexivity].
  rewrite (proj1 (count_occ_not_In N.eq_dec p NL) Hp). reflexivity.
Qed.

Lemma sse_write_holds_one_newline_witness :
  count_occ N.eq_dec (js "hello" ++ [NL]) NL = 1%nat /\
  last (js "hello" ++ [NL]) 0 = NL.
Proof.
  apply (sse_write_holds_one_newline echo_runtime new_TextDecoder []
           [x64; x61; x74; x61; x3a; x20; x68; x65; x6c; x6c; x6f; x0a; x0a]%byte
           sample_streaming).
  simpl. now left.
Defined.

(** ** Reconnecting *)

Section Reconnect.

Variable rt : runtime.

(** A connection that has read some values and then breaks, up to the new
    attempt. *)
Lemma run_broken_connection values d buf b message :
  sse b = Streaming d buf ->
  let events := fst (read_all d buf values) in
  run rt (List.map SseRead values ++ [SseReadRejected message; TimerFired]) b
  = (fst (for_each (on_sse_event rt) events b)
       ++ [Stderr (js "[Proxy] SSE Error: " ++ message); SetTimeout 5000;
           Get (sseUrl b)],
     set_sse (snd (for_each (on_sse_event rt) events b)) Connecting).
Proof.
  intros Hb. cbv zeta. unfold run. rewrite for_each_app.
  fold (run rt (List.map SseRead values) b).
  rewrite (run_sse_reads rt values d buf b Hb). cbn [fst snd].
  destruct (on_sse_events_frame rt (fst (read_all d buf values)) b) as (H1 & _).
  destruct (for_each (on_sse_event rt) (fst (read_all d buf values)) b) as [tr b1].
  cbn [fst snd] in *.
  cbn [for_each step sse set_sse sse_failed fst snd app sseUrl]. now rewrite H1.
Qed.

End Reconnect.

(** X8. What an SSE connection leaves behind when it breaks is not carried
    into the next one: whatever was read before - half an event in the
    buffer, half a character in the decoder - after the failure, the timer
    and a new response that has a body, the reader starts with a new decoder
    and an empty buffer. The input buffer and the SSE URL are as they were;
    and if no endpoint event was completed, so is the target of the POSTs.
    A new response without a body is one more failure: it is logged, and the
    bridge waits for the timer again. *)
Theorem reconnect_starts_afresh rt b d buf values message status statusText :
  sse b = Streaming d buf ->
  let broken := List.map SseRead values ++ [SseReadRejected message; TimerFired] in
  (let b' := snd (run rt (broken ++ [SseResponded true status statusText BodyStream]) b) in
   sse b' = Streaming new_TextDecoder [] /\
   inputBuffer b' = inputBuffer b /\ sseUrl b' = sseUrl b /\
   (existsb names_endpoint (fst (read_all d buf values)) = false ->
    postUrl b' = postUrl b)) /\
  (forall m,
     let r := run rt (broken ++ [SseResponded true status statusText (BodyNull m)]) b in
     sse (snd r) = Waiting /\
     exists tr, fst r = tr ++ [Stderr (js "[Proxy] SSE Error: " ++ m); SetTimeout 5000]).
Proof.
  intros Hb. cbv zeta.
  assert (Hrun : forall last,
            run rt ((List.map SseRead values ++ [SseReadRejected message; TimerFired])
                      ++ [last]) b
            = (fst (run rt (List.map SseRead values
                              ++ [SseReadRejected message; TimerFired]) b)
                 ++ fst (step rt last
                           (snd (run rt (List.map SseRead values
                                           ++ [SseReadRejected message; TimerFired]) b))),
               snd (step rt last
                      (snd (run rt (List.map SseRead values
                                      ++ [SseReadRejected message; TimerFired]) b))))).
  { intros last. unfold run. rewrite for_each_app, for_each_cons. cbn [for_each fst snd].
    now rewrite app_nil_r. }
  rewrite !Hrun, (run_broken_connection rt values d buf b message Hb). cbv zeta.
  set (events := fst (read_all d buf values)).
  destruct (on_sse_events_frame rt events b) as (H1 & H2 & _ & _).
  pose proof (on_sse_events_plain rt events b) as H3.
  destruct (for_each (on_sse_event rt) events b) as [tr b1]. cbn [fst snd] in *.
  split.
  - repeat split; auto.
  - intros m. rewrite Hrun, (run_broken_connection rt values d buf b message Hb).
    cbv zeta. fold events.
    destruct (for_each (on_sse_event rt) events b) as [tr' b1']. cbn [fst snd].
    split; [reflexivity|]. eexists. reflexivity.
Qed.

Lemma reconnect_starts_afresh_witness :
  sse (snd (run echo_runtime
              ((List.map SseRead [[x64; x61; x74; x61; x3a; x20; xc3]]%byte
                  ++ [SseReadRejected (js "terminated"); TimerFired])
                 ++ [SseResponded true 200 (js "OK") BodyStream])
              sample_streaming))
  = Streaming new_TextDecoder [] /\
  sse (snd (run echo_runtime
              ((List.map SseRead [[x64; x61; x74; x61; x3a; x20; xc3]]%byte
                  ++ [SseReadRejected (js "terminated"); TimerFired])
                 ++ [SseResponded true 204 (js "No Content")
                       (BodyNull (js "Cannot read properties of null"))])
              sample_streaming))
  = Waiting.
Proof.
  destruct (reconnect_starts_afresh echo_runtime sample_streaming new_TextDecoder []
              [[x64; x61; x74; x61; x3a; x20; xc3]]%byte (js "terminated") 200 (js "OK")
              eq_refl) as [[H1 _] _].
  destruct (reconnect_starts_afresh echo_runtime sample_streaming new_TextDecoder []
              [[x64; x61; x74; x61; x3a; x20; xc3]]%byte (js "terminated") 204
              (js "No Content") eq_refl) as [_ H2].
  split; [exact H1 | exact (proj1 (H2 (js "Cannot read properties of null")))].
Defined.

(** ** The endpoint mark *)

Lemma on_plain_data_line rt d b :
  on_sse_line rt (js "data: " ++ d) (false, b) = (relay rt d, (false, b)).
Proof. unfold on_sse_line. now rewrite classify_data. Qed.

Lemma split_three a b c :
  indexOf NL a = None -> indexOf NL b = None -> indexOf NL c = None ->
  split_on NL (a ++ [NL] ++ b ++ [NL] ++ c) = [a; b; c].
Proof.
  intros Ha Hb Hc.
  change (a ++ [NL] ++ b ++ [NL] ++ c) with (a ++ NL :: (b ++ NL :: c)).
  now rewrite !split_on_first, split_on_whole.
Qed.

Lemma split_two a b :
  indexOf NL a = None -> indexOf NL b = None ->
  split_on NL (a ++ [NL] ++ b) = [a; b].
Proof.
  intros Ha Hb. change (a ++ [NL] ++ b) with (a ++ NL :: b).
  now rewrite split_on_first, split_on_whole.
Qed.

Lemma data_line_closed d : indexOf NL d = None -> indexOf NL (js "data: " ++ d) = None.
Proof. intros H. apply indexOf_None_app. now split. Qed.

(** X9. The endpoint mark lives in one block and is used once. (1) An event
    line naming the endpoint in one block and the data line in the next: the
    data is relayed like any payload and the target stays. (2) A data line
    before the event line of its block is relayed like any payload. (3) Of
    two data lines after the event line, the first is the new target and the
    second is relayed like any payload. *)
Theorem endpoint_mark_is_per_block rt b d1 d2 :
  indexOf NL d1 = None -> indexOf NL d2 = None ->
  for_each (on_sse_event rt) [js "event: endpoint"; js "data: " ++ d1] b
  = (relay rt d1, b) /\
  on_sse_event rt (js "data: " ++ d1 ++ [NL] ++ js "event: endpoint") b
  = (relay rt d1, b) /\
  (forall target,
     endpoint_target rt (sseUrl b) d1 = Some target ->
     on_sse_event rt (js "event: endpoint" ++ [NL] ++ js "data: " ++ d1 ++ [NL]
                        ++ js "data: " ++ d2) b
     = (relay rt d2, set_postUrl b target)).
Proof.
  intros H1 H2. split; [|split].
  - rewrite !for_each_cons. unfold on_sse_event at 1.
    change (split_on NL (js "event: endpoint")) with [js "event: " ++ js "endpoint"].
    rewrite for_each_cons, (on_event_line rt (js "endpoint") false b eq_refl).
    cbn [fst snd for_each]. unfold on_sse_event.
    rewrite (split_on_whole NL _ (data_line_closed d1 H1)).
    rewrite for_each_cons, on_plain_data_line. cbn [fst snd for_each app].
    now rewrite !app_nil_r.
  - unfold on_sse_event.
    replace (js "data: " ++ d1 ++ [NL] ++ js "event: endpoint")
      with ((js "data: " ++ d1) ++ [NL] ++ (js "event: " ++ js "endpoint"))
      by now rewrite <- app_assoc.
    rewrite (split_two (js "data: " ++ d1) (js "event: " ++ js "endpoint")
               (data_line_closed d1 H1) eq_refl).
    rewrite for_each_cons, on_plain_data_line. cbn [fst snd].
    rewrite for_each_cons, (on_event_line rt (js "endpoint") false b eq_refl).
    cbn [fst snd for_each app]. now rewrite !app_nil_r.
  - intros target Ht. unfold on_sse_event.
    replace (js "event: endpoint" ++ [NL] ++ js "data: " ++ d1 ++ [NL] ++ js "data: " ++ d2)
      with ((js "event: " ++ js "endpoint") ++ [NL] ++ (js "data: " ++ d1) ++ [NL]
              ++ (js "data: " ++ d2))
      by now rewrite <- !app_assoc.
    rewrite (split_three (js "event: " ++ js "endpoint") (js "data: " ++ d1)
               (js "data: " ++ d2) eq_refl
               (data_line_closed d1 H1) (data_line_closed d2 H2)).
    rewrite for_each_cons, (on_event_line rt (js "endpoint") false b eq_refl).
    cbn [fst snd].
    rewrite for_each_cons, on_endpoint_data_line, Ht. cbn [fst snd].
    rewrite for_each_cons, on_plain_data_line. cbn [fst snd for_each app].
    now rewrite !app_nil_r.
Qed.

Lemma endpoint_mark_is_per_block_witness :
  for_each (on_sse_event echo_runtime)
           [js "event: endpoint"; js "data: " ++ js "/mcp"] sample_streaming
  = ([Stdout (js "/mcp" ++ [NL])], sample_streaming) /\
  on_sse_event echo_runtime
    (js "event: endpoint" ++ [NL] ++ js "data: " ++ js "/mcp" ++ [NL]
       ++ js "data: " ++ js "x") sample_streaming
  = ([Stdout (js "x" ++ [NL])],
     set_postUrl sample_streaming (sample_origin ++ js "/mcp")).
Proof.
  destruct (endpoint_mark_is_per_block echo_runtime sample_streaming
              (js "/mcp") (js "x") eq_refl eq_refl) as (H1 & _ & H3).
  split; [exact H1|]. apply H3. reflexivity.
Defined.

(** ** The two SSE readers *)

Lemma legacy_on_sse_event_spec event :
  legacy_on_sse_event event
  = List.map (fun d => Stdout (d ++ [NL])) (data_payloads event).
Proof.
  unfold legacy_on_sse_event, data_payloads.
  induction (split_on NL event) as [|l ls IH]; [reflexivity|].
  cbn [flat_map]. rewrite IH, map_app. f_equal. unfold classify.
  destruct (startsWith (js "event: ") l) eqn:E1.
  - (* a line cannot start with both markers *)
    destruct (startsWith (js "data: ") l) eqn:E2; [|reflexivity].
    apply startsWith_prefix in E1. apply startsWith_prefix in E2.
    rewrite E2 in E1. discriminate.
  - now destruct (startsWith (js "data: ") l).
Qed.

(** X10. The reader of the earlier variant writes every data payload of a
    block, followed by a newline, endpoint data and suppressed notifications
    included. The reader of proxy.js writes nothing the earlier one would not
    write; and for a block that names no endpoint event and holds no
    suppressed notification the two write the same. *)
Theorem legacy_reader_writes_everything rt event b :
  legacy_on_sse_event event
  = List.map (fun d => Stdout (d ++ [NL])) (data_payloads event) /\
  (forall w, In w (stdout_writes (fst (on_sse_event rt event b))) ->
             In w (stdout_writes (legacy_on_sse_event event))) /\
  (names_endpoint event = false ->
   (forall d, In d (data_payloads event) -> is_suppressed rt d = false) ->
   fst (on_sse_event rt event b) = legacy_on_sse_event event).
Proof.
  split; [apply legacy_on_sse_event_spec|]. rewrite legacy_on_sse_event_spec. split.
  - intros w Hw. apply on_sse_event_writes in Hw as (d & Hd & _ & ->).
    unfold stdout_writes. rewrite flat_map_concat_map, map_map. simpl.
    rewrite <- flat_map_concat_map. apply in_flat_map. exists d. split; [exact Hd|].
    now left.
  - intros Hn Hs. rewrite (on_sse_event_plain rt event b Hn), relays_spec. cbn [fst].
    f_equal. apply forallb_filter_id. apply forallb_forall. intros d Hd.
    now rewrite (Hs d Hd).
Qed.

Lemma legacy_reader_writes_everything_witness :
  fst (on_sse_event ready_runtime (js "data: " ++ js "x") sample_streaming)
  = legacy_on_sse_event (js "data: " ++ js "x") /\
  In (js "x" ++ [NL]) (stdout_writes (legacy_on_sse_event (js "data: " ++ js "x"))).
Proof.
  destruct (legacy_reader_writes_everything ready_runtime
              (js "data: " ++ js "x") sample_streaming) as (_ & H2 & H3).
  split.
  - apply H3; [reflexivity|]. intros d [<-|[]]. reflexivity.
  - apply H2. simpl. now left.
Defined.

(** ** The two stdin handlers *)

Lemma take_waiting_spec n waiting : forall lines others,
  take_waiting n waiting = Some (lines, others) ->
  Permutation (still_to_send waiting) (filter nonblank lines ++ still_to_send others).
Proof.
  induction waiting as [|a w IH]; intros lines others H; [discriminate|].
  cbn [take_waiting] in H. destruct (Nat.eqb (fst a) n).
  - injection H as <- <-. reflexivity.
  - destruct (take_waiting n w) as [[ls os]|]; [|discriminate].
    injection H as <- <-. unfold still_to_send. cbn [flat_map].
    fold (still_to_send w). fold (still_to_send os).
    rewrite (IH ls os eq_refl). apply Permutation_app_swap_app.
Qed.

Lemma legacy_enter_loop_spec lines b waiting :
  let r := legacy_enter_loop lines b waiting in
  Permutation (posted (fst r) ++ still_to_send (legacy_waiting (snd r)))
              (still_to_send waiting ++ filter nonblank lines).
Proof.
  cbv zeta. unfold legacy_enter_loop.
  pose proof (legacy_next_line_filter lines) as Hf.
  destruct (legacy_next_line lines) as [[line lines']|].
  - destruct Hf as [-> _]. cbn [fst snd legacy_waiting posted flat_map app].
    unfold still_to_send. rewrite flat_map_app. cbn [flat_map snd].
    rewrite app_nil_r. apply Permutation_cons_app. reflexivity.
  - rewrite Hf, app_nil_r. reflexivity.
Qed.

Lemma legacy_settled_posted n o p :
  posted (fst (legacy_overlap_step (LegacyPostSettled n o) p))
  = match take_waiting n (legacy_waiting p) with
    | Some (lines, others) => posted (fst (legacy_enter_loop lines (legacy_state p) others))
    | None => []
    end /\
  snd (legacy_overlap_step (LegacyPostSettled n o) p)
  = match take_waiting n (legacy_waiting p) with
    | Some (lines, others) => snd (legacy_enter_loop lines (legacy_state p) others)
    | None => p
    end.
Proof.
  unfold legacy_overlap_step.
  destruct (take_waiting n (legacy_waiting p)) as [[lines others]|]; [|now split].
  destruct (legacy_enter_loop lines (legacy_state p) others) as [tr p'].
  cbn [fst snd]. now rewrite posted_app, on_post_settled_silent.
Qed.

Lemma overlap_settled_posted rt n o p :
  posted (fst (overlap_step rt (PostSettled n o) p))
  = (if existsb (Nat.eqb n) (in_flight p)
     then posted (fst (enter_loop (state p) (remove Nat.eq_dec n (in_flight p))))
     else []) /\
  snd (overlap_step rt (PostSettled n o) p)
  = if existsb (Nat.eqb n) (in_flight p)
    then snd (enter_loop (state p) (remove Nat.eq_dec n (in_flight p)))
    else p.
Proof.
  unfold overlap_step. destruct (existsb (Nat.eqb n) (in_flight p)); [|now split].
  destruct (enter_loop (state p) (remove Nat.eq_dec n (in_flight p))) as [tr p'].
  cbn [fst snd]. now rewrite posted_app, on_post_settled_silent.
Qed.

Lemma legacy_overlap_step_spec e p :
  let r := legacy_overlap_step e p in
  Permutation (posted (fst r) ++ still_to_send (legacy_waiting (snd r)))
              (still_to_send (legacy_waiting p)
               ++ flat_map (fun c => filter nonblank (split_on NL (Buffer_toString c)))
                           (legacy_chunks_of [e])).
Proof.
  cbv zeta. destruct e as [chunk|n o].
  - unfold legacy_chunks_of. cbn [flat_map app]. rewrite !app_nil_r.
    apply legacy_enter_loop_spec.
  - destruct (legacy_settled_posted n o p) as [-> ->].
    unfold legacy_chunks_of. cbn [flat_map app]. rewrite app_nil_r.
    destruct (take_waiting n (legacy_waiting p)) as [[lines others]|] eqn:E.
    + rewrite (take_waiting_spec _ _ _ _ E).
      rewrite (legacy_enter_loop_spec lines (legacy_state p) others).
      apply Permutation_app_comm.
    + reflexivity.
Qed.

Lemma legacy_overlap_run_spec events : forall p,
  let r := legacy_overlap_run events p in
  Permutation (posted (fst r) ++ still_to_send (legacy_waiting (snd r)))
              (still_to_send (legacy_waiting p)
               ++ flat_map (fun c => filter nonblank (split_on NL (Buffer_toString c)))
                           (legacy_chunks_of events)).
Proof.
  unfold legacy_overlap_run. induction events as [|e es IH]; intros p; cbv zeta.
  - simpl. now rewrite app_nil_r.
  - rewrite for_each_cons. cbn [fst snd]. rewrite posted_app, <- app_assoc.
    rewrite (IH (snd (legacy_overlap_step e p))), app_assoc.
    rewrite (legacy_overlap_step_spec e p), <- app_assoc.
    apply Permutation_app_head.
    change (e :: es) with ([e] ++ es). unfold legacy_chunks_of.
    now rewrite !flat_map_app.
Qed.

(** X11. The unbuffered stdin handler of the earlier variant against the
    buffered one of proxy.js. (1) For one chunk and an empty buffer, an
    activation of the earlier variant posts what proxy.js posts and then, if
    it is not blank, the text after the last newline, which proxy.js keeps
    for the next chunk. (2) With activations that overlap, in every order of
    chunks and settled POSTs, the bodies the earlier variant has posted and
    those its suspended activations have still to post are, in some order,
    the non-blank pieces of the chunks. (3) The order is not that of the
    input: of the chunks [a\nb\n] and [c\n], with the second delivered before
    the first POST is settled, the earlier variant posts [a], [c], [b], and
    proxy.js posts [a], [b], [c]. *)
Theorem legacy_relay_posts_the_tail rt :
  (forall chunk b,
     inputBuffer b = [] ->
     posted (fst (legacy_on_stdin_data rt chunk b))
     = posted (fst (on_stdin_data rt chunk b))
         ++ filter nonblank [open_segment (Buffer_toString chunk)]) /\
  (forall events p,
     let r := legacy_overlap_run events p in
     Permutation
       (posted (fst r) ++ still_to_send (legacy_waiting (snd r)))
       (still_to_send (legacy_waiting p)
        ++ flat_map (fun c => filter nonblank (split_on NL (Buffer_toString c)))
                    (legacy_chunks_of events))) /\
  (forall url target phase o0 o1 o2,
     let b := mk_bridge url target [] 0 phase in
     posted (fst (legacy_overlap_run
                    [LegacyData [x61; x0a; x62; x0a]%byte; LegacyData [x63; x0a]%byte;
                     LegacyPostSettled 0 o0; LegacyPostSettled 1 o1;
                     LegacyPostSettled 2 o2]
                    (mk_legacy_process b [])))
     = [[97]; [99]; [98]] /\
     posted (fst (overlap_run rt
                    [Arrives (StdinData [x61; x0a; x62; x0a]%byte);
                     Arrives (StdinData [x63; x0a]%byte);
                     PostSettled 0 o0; PostSettled 1 o1; PostSettled 2 o2]
                    (mk_process b [])))
     = [[97]; [98]; [99]]).
Proof.
  split; [|split].
  - intros chunk b Hb. rewrite legacy_posted, on_stdin_data_spec. cbn [fst].
    rewrite sends_posted, Hb. cbn [app].
    pose proof (sp_nonempty _ _ (split_on_splits NL) (Buffer_toString chunk)) as Hne.
    rewrite (app_removelast_last [] Hne) at 1. now rewrite filter_app.
  - intros events p. apply legacy_overlap_run_spec.
  - intros url target phase o0 o1 o2. cbv zeta. split.
    + unfold legacy_overlap_run. rewrite !for_each_cons. cbn [fst snd for_each].
      rewrite !posted_app.
      rewrite !(proj1 (legacy_settled_posted _ _ _)), !(proj2 (legacy_settled_posted _ _ _)).
      reflexivity.
    + unfold overlap_run. rewrite !for_each_cons. cbn [fst snd for_each].
      rewrite !posted_app.
      rewrite !(proj1 (overlap_settled_posted rt _ _ _)),
              !(proj2 (overlap_settled_posted rt _ _ _)).
      reflexivity.
Qed.

Lemma legacy_relay_posts_the_tail_witness :
  posted (fst (legacy_on_stdin_data echo_runtime [x61; x0a; x62]%byte sample_bridge))
  = posted (fst (on_stdin_data echo_runtime [x61; x0a; x62]%byte sample_bridge))
      ++ [[98]].
Proof.
  apply (proj1 (legacy_relay_posts_the_tail echo_runtime)
           [x61; x0a; x62]%byte sample_bridge).
  reflexivity.
Defined.

Section LegacySchedule.

Variable rt : runtime.

Lemma legacy_step_settled n o b lines :
  legacy_overlap_step (LegacyPostSettled n o) (mk_legacy_process b [(n, lines)])
  = (on_post_settled o ++ fst (legacy_enter_loop lines b []),
     snd (legacy_enter_loop lines b [])).
Proof.
  unfold legacy_overlap_step. cbn [legacy_waiting legacy_state take_waiting fst snd].
  rewrite Nat.eqb_refl. now destruct (legacy_enter_loop lines b []).
Qed.

Lemma legacy_settled_at_once_spec lines : forall b,
  let entered := legacy_enter_loop lines b [] in
  let r := legacy_overlap_run (legacy_settled_at_once rt lines b) (snd entered) in
  fst entered ++ fst r = fst (for_each (send_if_nonblank rt) lines b) /\
  snd r = mk_legacy_process (snd (for_each (send_if_nonblank rt) lines b)) [].
Proof.
  induction lines as [|l ls IH]; intros b; cbv zeta; [split; reflexivity|].
  unfold legacy_enter_loop. cbn [legacy_next_line legacy_settled_at_once].
  rewrite for_each_cons.
  change (send_if_nonblank rt l b)
    with (if truthy (trim l) then forward_line rt l b else ([], b)).
  destruct (truthy (trim l)) eqn:E.
  - rewrite forward_line_settled. unfold legacy_overlap_run. rewrite for_each_cons.
    cbn [fst snd app]. rewrite legacy_step_settled. cbn [fst snd].
    destruct (IH (count_post b)) as [IH1 IH2]. cbv zeta in IH1, IH2.
    unfold legacy_overlap_run in IH1, IH2. rewrite IH2, <- IH1.
    split; [|reflexivity]. now rewrite <- app_assoc.
  - cbn [fst snd app]. exact (IH b).
Qed.

End LegacySchedule.

(** X19. An activation of the stdin handler of the earlier variant that
    runs to its end is the earlier variant with overlapping activations on
    one of its schedules: the chunk arrives, and the POST of each of its
    lines is settled, with the outcome the remote gives it, before anything
    else happens. *)
Theorem legacy_activation_is_a_schedule rt chunk b :
  legacy_overlap_run (legacy_chunk_at_once rt chunk b) (mk_legacy_process b [])
  = (fst (legacy_on_stdin_data rt chunk b),
     mk_legacy_process (snd (legacy_on_stdin_data rt chunk b)) []).
Proof.
  unfold legacy_chunk_at_once, legacy_on_stdin_data, legacy_overlap_run.
  rewrite for_each_cons.
  destruct (legacy_settled_at_once_spec rt (split_on NL (Buffer_toString chunk)) b)
    as [H1 H2].
  cbv zeta in H1, H2. unfold legacy_overlap_run in H1, H2.
  rewrite <- H1, <- H2. reflexivity.
Qed.

(** ** The worker's event stream, read by the bridge *)

Lemma to_N_byte_of c : c < 256 -> Byte.to_N (byte_of c) = c.
Proof.
  intros H. unfold byte_of. destruct (Byte.of_N c) as [x|] eqn:E.
  - now apply Byte.to_of_N.
  - apply Byte.of_N_None_iff in E. lia.
Qed.

Lemma encode_ascii s :
  ascii_text s = true -> TextEncoder_encode s = List.map byte_of s.
Proof.
  unfold ascii_text. induction s as [|c s IH]; intros H; [reflexivity|].
  simpl in H. apply andb_true_iff in H as [Hc H]. apply N.ltb_lt in Hc.
  cbn [TextEncoder_encode List.map]. unfold is_high_surrogate, is_low_surrogate.
  rewrite (proj2 (N.leb_gt 0xD800 c)) by lia.
  rewrite (proj2 (N.leb_gt 0xDC00 c)) by lia. cbn [andb].
  unfold utf8_bytes. rewrite (proj2 (N.ltb_lt c 0x80)) by lia.
  simpl. now rewrite IH.
Qed.

Lemma decode_ascii s :
  ascii_text s = true ->
  decode_stream new_TextDecoder (List.map byte_of s)
  = (mk_decoder utf8_init (truthy s), s).
Proof.
  intros H. unfold decode_stream. cbn [dec_utf8 dec_bom_seen new_TextDecoder].
  assert (Hb : forallb is_ascii (List.map byte_of s) = true /\
               List.map Byte.to_N (List.map byte_of s) = s).
  { unfold ascii_text in H. induction s as [|c s IH]; [now split|].
    simpl in H. apply andb_true_iff in H as [Hc H]. apply N.ltb_lt in Hc.
    destruct (IH H) as [IH1 IH2]. cbn [List.map forallb]. unfold is_ascii at 1.
    rewrite to_N_byte_of by lia. rewrite IH1, IH2.
    now rewrite (proj2 (N.ltb_lt c 0x80)) by lia. }
  destruct Hb as [Hb1 Hb2]. rewrite (ascii_run _ Hb1), Hb2.
  destruct s as [|c s']; [reflexivity|].
  unfold ascii_text in H. simpl in H. apply andb_true_iff in H as [Hc _].
  apply N.ltb_lt in Hc. simpl.
  now rewrite (proj2 (N.eqb_neq c 0xFEFF)) by lia.
Qed.

Lemma ascii_text_app s t : ascii_text (s ++ t) = ascii_text s && ascii_text t.
Proof. apply forallb_app. Qed.

Lemma ascii_text_repeat s n :
  ascii_text s = true -> ascii_text (List.concat (repeat s n)) = true.
Proof.
  intros H. induction n as [|n IH]; [reflexivity|].
  simpl. now rewrite ascii_text_app, H, IH.
Qed.

Lemma block_like_join a b :
  a <> [] -> b <> [] -> indexOf NL a = None -> indexOf NL b = None ->
  block_like (a ++ NL :: b) = true.
Proof.
  intros Ha Hb Hna Hnb. induction a as [|x a IH]; [now elim Ha|].
  apply indexOf_None_cons in Hna as [Hx Hna].
  apply N.eqb_neq in Hx. destruct a as [|x' a'].
  - destruct b as [|y b']; [now elim Hb|].
    apply indexOf_None_cons in Hnb as [Hy Hnb']. apply N.eqb_neq in Hy.
    change (block_like ([x] ++ NL :: y :: b'))
      with (negb ((x =? NL) && (NL =? NL))
            && (negb ((NL =? NL) && (y =? NL)) && block_like (y :: b'))).
    rewrite Hx, Hy. simpl negb. cbn [andb].
    clear -Hy Hnb'. revert y Hy. induction b' as [|z b'' IHb]; intros y Hy.
    + simpl. now rewrite Hy.
    + apply indexOf_None_cons in Hnb' as [Hz Hnb'']. apply N.eqb_neq in Hz.
      change (block_like (y :: z :: b''))
        with (negb ((y =? NL) && (z =? NL)) && block_like (z :: b'')).
      rewrite Hy. simpl. now apply IHb.
  - change (block_like ((x :: x' :: a') ++ NL :: b))
      with (negb ((x =? NL) && (x' =? NL)) && block_like ((x' :: a') ++ NL :: b)).
    rewrite Hx. simpl. apply IH; [discriminate | exact Hna].
Qed.

Lemma startsWith_app_r p s t : startsWith p s = true -> startsWith p (s ++ t) = true.
Proof.
  revert s. induction p as [|a p IH]; intros s H; [now destruct (s ++ t)|].
  destruct s as [|b s]; [discriminate|]. simpl in *.
  apply andb_true_iff in H as [-> H]. now rewrite IH.
Qed.

Section WorkerStream.

Variable rt : runtime.

Lemma keepalives_are_silent n : forall b,
  for_each (on_sse_event rt) (repeat (js ": keepalive") n) b = ([], b).
Proof.
  induction n as [|n IH]; intros b; [reflexivity|].
  cbn [repeat]. rewrite for_each_cons.
  rewrite (on_sse_event_plain rt (js ": keepalive") b eq_refl).
  cbn [fst snd]. rewrite IH. reflexivity.
Qed.

End WorkerStream.

(** X12. The bridge on the event stream of the worker. The worker opens the
    stream with the endpoint event for [origin/mcp?sessionId=...] and then
    sends a keep-alive comment every 15 seconds. However these bytes are cut
    into reads, the bridge writes nothing to the local peer, takes the URL of
    the event as the target of its POSTs, and holds nothing in its buffer
    when the last comment is through. The origin and the session id are
    ASCII without a newline, and the origin starts with [http], as the origin
    of the URL of an HTTP request and a UUID do. *)
Theorem worker_stream_retargets_bridge rt origin sessionId n values b :
  ascii_text origin = true -> ascii_text sessionId = true ->
  indexOf NL origin = None -> indexOf NL sessionId = None ->
  startsWith (js "http") origin = true ->
  List.concat values = worker_sse_stream origin sessionId n ->
  sse b = Streaming new_TextDecoder [] ->
  let r := run rt (List.map SseRead values) b in
  fst r = [] /\
  postUrl (snd r) = endpoint_url origin sessionId /\
  inputBuffer (snd r) = inputBuffer b /\
  exists d, sse (snd r) = Streaming d [].
Proof.
  intros Ha1 Ha2 Hn1 Hn2 Hhttp Hvalues Hb. cbv zeta.
  set (url := endpoint_url origin sessionId).
  set (G := js "event: " ++ js "endpoint" ++ [NL] ++ js "data: " ++ url).
  set (K := js ": keepalive").
  assert (Hurl_ascii : ascii_text url = true).
  { unfold url, endpoint_url. now rewrite !ascii_text_app, Ha1, Ha2. }
  assert (Hurl_closed : indexOf NL url = None).
  { unfold url, endpoint_url. rewrite !indexOf_None_app. auto. }
  assert (Hstream : worker_sse_stream origin sessionId n
                    = List.map byte_of
                        (List.concat (List.map (fun e => e ++ [NL; NL]) (G :: repeat K n)))).
  { assert (HT : js "event: endpoint" ++ [NL] ++ js "data: " ++ url ++ [NL; NL]
                 = G ++ [NL; NL]).
    { unfold G. rewrite <- !app_assoc. reflexivity. }
    assert (HG : ascii_text (G ++ [NL; NL]) = true).
    { unfold G. rewrite !ascii_text_app, Hurl_ascii. reflexivity. }
    unfold worker_sse_stream, sse_greeting, sse_keepalive. fold url.
    rewrite HT, (encode_ascii _ HG), (encode_ascii (js ": keepalive" ++ [NL; NL]) eq_refl).
    cbn [List.map List.concat]. rewrite (map_app byte_of (G ++ [NL; NL])). f_equal.
    clear. induction n as [|k IHk]; [reflexivity|].
    cbn [repeat List.map List.concat].
    now rewrite (map_app byte_of (K ++ [NL; NL])), IHk. }
  assert (Hascii : ascii_text
            (List.concat (List.map (fun e => e ++ [NL; NL]) (G :: repeat K n))) = true).
  { cbn [List.map List.concat]. rewrite ascii_text_app.
    assert (HG : ascii_text (G ++ [NL; NL]) = true).
    { unfold G. rewrite !ascii_text_app, Hurl_ascii. reflexivity. }
    rewrite HG. cbn [andb].
    clear. induction n as [|k IHk]; [reflexivity|].
    cbn [repeat List.map List.concat]. rewrite ascii_text_app, IHk. reflexivity. }
  rewrite (run_sse_reads rt values new_TextDecoder [] b Hb).
  rewrite (read_all_spec values new_TextDecoder [] eq_refl).
  rewrite Hvalues, Hstream, (decode_ascii _ Hascii). cbn [fst snd].
  rewrite app_nil_l.
  destruct (blocks_of_events (G :: repeat K n) []) as [Hblocks Hopen];
    [ | reflexivity | ].
  { constructor.
    - unfold G. rewrite app_assoc.
      change ([NL] ++ js "data: " ++ url) with (NL :: (js "data: " ++ url)).
      apply block_like_join; try discriminate.
      + reflexivity.
      + now apply data_line_closed.
    - apply Forall_forall. intros e He. apply repeat_spec in He. now subst e. }
  rewrite app_nil_r in Hblocks, Hopen. rewrite Hblocks, Hopen.
  rewrite for_each_cons. unfold G.
  rewrite (on_endpoint_event rt b (js "endpoint") url eq_refl eq_refl Hurl_closed).
  assert (Htarget : endpoint_target rt (sseUrl b) url = Some url).
  { unfold endpoint_target, url, endpoint_url.
    now rewrite (startsWith_app_r _ _ _ Hhttp). }
  rewrite Htarget. cbn [fst snd]. rewrite keepalives_are_silent.
  cbn [fst snd app]. split; [reflexivity|]. split; [reflexivity|].
  split; [reflexivity|]. eexists. reflexivity.
Qed.

Lemma worker_stream_retargets_bridge_witness :
  let values :=
    [firstn 20 (worker_sse_stream sample_origin (js "0f1e") 2);
     skipn 20 (worker_sse_stream sample_origin (js "0f1e") 2)] in
  fst (run echo_runtime (List.map SseRead values) sample_streaming) = [] /\
  postUrl (snd (run echo_runtime (List.map SseRead values) sample_streaming))
  = sample_origin ++ js "/mcp?sessionId=" ++ js "0f1e".
Proof.
  cbv zeta.
  destruct (worker_stream_retargets_bridge echo_runtime sample_origin (js "0f1e") 2
              [firstn 20 (worker_sse_stream sample_origin (js "0f1e") 2);
               skipn 20 (worker_sse_stream sample_origin (js "0f1e") 2)]
              sample_streaming) as (H1 & H2 & _); try reflexivity.
  split; [exact H1 | exact H2].
Defined.

(** ** What the worker encodes, the bridge decodes *)

Section Utf8RoundTrip.

Ltac Zify.zify_post_hook ::= Z.to_euclidean_division_equations.

Lemma small_has_no_high_bit x k n : x < 2 ^ k -> k <= n -> N.testbit x n = false.
Proof.
  intros Hx Hk. destruct (N.eq_dec x 0) as [->|Hne]; [apply N.bits_0|].
  apply N.bits_above_log2. apply N.lt_le_trans with k; [|exact Hk].
  apply N.log2_lt_pow2; lia.
Qed.

Lemma lor_shiftl_add a x k : x < 2 ^ k -> N.lor (N.shiftl a k) x = a * 2 ^ k + x.
Proof.
  intros Hx. rewrite <- N.shiftl_mul_pow2.
  assert (H0 : N.land (N.shiftl a k) x = 0).
  { apply N.bits_inj_0. intros n. rewrite N.land_spec.
    destruct (N.lt_ge_cases n k) as [Hn|Hn].
    - now rewrite N.shiftl_spec_low.
    - now rewrite (small_has_no_high_bit x k n Hx Hn), andb_false_r. }
  now rewrite (N.add_nocarry_lxor _ _ H0), (N.lxor_lor _ _ H0).
Qed.

Lemma lor_80 x : x < 64 -> N.lor 0x80 x = 0x80 + x.
Proof. intros H. exact (lor_shiftl_add 2 x 6 H). Qed.
Lemma lor_C0 x : x < 32 -> N.lor 0xC0 x = 0xC0 + x.
Proof. intros H. exact (lor_shiftl_add 6 x 5 H). Qed.
Lemma lor_E0 x : x < 16 -> N.lor 0xE0 x = 0xE0 + x.
Proof. intros H. exact (lor_shiftl_add 14 x 4 H). Qed.
Lemma lor_F0 x : x < 8 -> N.lor 0xF0 x = 0xF0 + x.
Proof. intros H. exact (lor_shiftl_add 30 x 3 H). Qed.

Lemma land_3F y : N.land y 0x3F = y mod 64.
Proof. exact (N.land_ones y 6). Qed.
Lemma land_1F y : N.land y 0x1F = y mod 32.
Proof. exact (N.land_ones y 5). Qed.
Lemma land_0F y : N.land y 0xF = y mod 16.
Proof. exact (N.land_ones y 4). Qed.
Lemma land_07 y : N.land y 0x7 = y mod 8.
Proof. exact (N.land_ones y 3). Qed.
Lemma land_3FF y : N.land y 0x3FF = y mod 1024.
Proof. exact (N.land_ones y 10). Qed.

Lemma shiftr_6 y : N.shiftr y 6 = y / 64.
Proof. exact (N.shiftr_div_pow2 y 6). Qed.
Lemma shiftr_12 y : N.shiftr y 12 = y / 4096.
Proof. exact (N.shiftr_div_pow2 y 12). Qed.
Lemma shiftr_18 y : N.shiftr y 18 = y / 262144.
Proof. exact (N.shiftr_div_pow2 y 18). Qed.
Lemma shiftr_10 y : N.shiftr y 10 = y / 1024.
Proof. exact (N.shiftr_div_pow2 y 10). Qed.

Lemma lor_shiftl_6 cp x : x < 64 -> N.lor (N.shiftl cp 6) x = cp * 64 + x.
Proof. intros H. exact (lor_shiftl_add cp x 6 H). Qed.

(** A continuation byte read while a sequence is open, with the plain
    bounds. *)
Lemma utf8_step_continue k j cp lo hi x :
  k <> 0 -> x < 64 -> lo <= 0x80 + x -> 0x80 + x <= hi ->
  utf8_step (mk_utf8 k j cp lo hi) (0x80 + x)
  = if j + 1 =? k then (utf8_init, code_units (cp * 64 + x))
    else (mk_utf8 k (j + 1) (cp * 64 + x) 0x80 0xBF, []).
Proof.
  intros Hk Hx Hlo Hhi. unfold utf8_step. cbn [needed lower upper seen codepoint].
  rewrite (proj2 (N.eqb_neq k 0)) by lia.
  rewrite (proj2 (N.ltb_ge (0x80 + x) lo)) by lia.
  rewrite (proj2 (N.ltb_ge hi (0x80 + x))) by lia. cbn [orb].
  rewrite land_3F, lor_shiftl_6 by lia.
  replace ((0x80 + x) mod 64) with x by lia. reflexivity.
Qed.

Lemma utf8_lead_one x :
  x < 0x80 -> utf8_step utf8_init x = (utf8_init, [x]).
Proof.
  intros H. unfold utf8_step, utf8_lead. cbn [needed utf8_init].
  change (0 =? 0) with true. cbv iota.
  now rewrite (proj2 (N.leb_le x 0x7F)) by lia.
Qed.

Lemma utf8_lead_two x :
  2 <= x -> x < 32 ->
  utf8_step utf8_init (0xC0 + x) = (mk_utf8 1 0 x 0x80 0xBF, []).
Proof.
  intros H1 H2. unfold utf8_step, utf8_lead. cbn [needed utf8_init].
  change (0 =? 0) with true. cbv iota.
  rewrite (proj2 (N.leb_gt (0xC0 + x) 0x7F)) by lia.
  rewrite (proj2 (N.leb_le 0xC2 (0xC0 + x))) by lia.
  rewrite (proj2 (N.leb_le (0xC0 + x) 0xDF)) by lia. cbn [andb].
  rewrite land_1F. now replace ((0xC0 + x) mod 32) with x by lia.
Qed.

Lemma utf8_lead_three x :
  x < 16 ->
  utf8_step utf8_init (0xE0 + x)
  = (mk_utf8 2 0 x (if x =? 0 then 0xA0 else 0x80) (if x =? 13 then 0x9F else 0xBF), []).
Proof.
  intros H. unfold utf8_step, utf8_lead. cbn [needed utf8_init].
  change (0 =? 0) with true. cbv iota.
  rewrite (proj2 (N.leb_gt (0xE0 + x) 0x7F)) by lia.
  rewrite (proj2 (N.leb_le 0xC2 (0xE0 + x))) by lia.
  rewrite (proj2 (N.leb_gt (0xE0 + x) 0xDF)) by lia. cbn [andb].
  rewrite (proj2 (N.leb_le 0xE0 (0xE0 + x))) by lia.
  rewrite (proj2 (N.leb_le (0xE0 + x) 0xEF)) by lia. cbn [andb].
  rewrite land_0F. replace ((0xE0 + x) mod 16) with x by lia.
  destruct (N.eqb_spec x 0) as [->|H0]; [reflexivity|].
  rewrite (proj2 (N.eqb_neq (0xE0 + x) 0xE0)) by lia.
  destruct (N.eqb_spec x 13) as [->|H13]; [reflexivity|].
  now rewrite (proj2 (N.eqb_neq (0xE0 + x) 0xED)) by lia.
Qed.

Lemma utf8_lead_four x :
  x <= 4 ->
  utf8_step utf8_init (0xF0 + x)
  = (mk_utf8 3 0 x (if x =? 0 then 0x90 else 0x80) (if x =? 4 then 0x8F else 0xBF), []).
Proof.
  intros H. unfold utf8_step, utf8_lead. cbn [needed utf8_init].
  change (0 =? 0) with true. cbv iota.
  rewrite (proj2 (N.leb_gt (0xF0 + x) 0x7F)) by lia.
  rewrite (proj2 (N.leb_le 0xC2 (0xF0 + x))) by lia.
  rewrite (proj2 (N.leb_gt (0xF0 + x) 0xDF)) by lia. cbn [andb].
  rewrite (proj2 (N.leb_le 0xE0 (0xF0 + x))) by lia.
  rewrite (proj2 (N.leb_gt (0xF0 + x) 0xEF)) by lia. cbn [andb].
  rewrite (proj2 (N.leb_le 0xF0 (0xF0 + x))) by lia.
  rewrite (proj2 (N.leb_le (0xF0 + x) 0xF4)) by lia. cbn [andb].
  rewrite land_07. replace ((0xF0 + x) mod 8) with x by lia.
  destruct (N.eqb_spec x 0) as [->|H0]; [reflexivity|].
  rewrite (proj2 (N.eqb_neq (0xF0 + x) 0xF0)) by lia.
  destruct (N.eqb_spec x 4) as [->|H4]; [reflexivity|].
  now rewrite (proj2 (N.eqb_neq (0xF0 + x) 0xF4)) by lia.
Qed.

Lemma decode_four_bytes c :
  0x10000 <= c -> c < 0x110000 ->
  utf8_run utf8_init (utf8_bytes c) = (utf8_init, code_units c).
Proof.
  intros Hlo Hhi. unfold utf8_bytes.
  rewrite (proj2 (N.ltb_ge c 0x80)) by lia.
  rewrite (proj2 (N.ltb_ge c 0x800)) by lia.
  rewrite (proj2 (N.ltb_ge c 0x10000)) by lia.
  rewrite !land_3F, shiftr_6, shiftr_12, shiftr_18.
  rewrite lor_F0 by lia. rewrite !lor_80 by lia.
  cbn [utf8_run]. rewrite !to_N_byte_of by lia.
  rewrite utf8_lead_four by lia.
  rewrite utf8_step_continue;
    [ | lia | lia
      | destruct (N.eqb_spec (c / 262144) 0); lia
      | destruct (N.eqb_spec (c / 262144) 4); lia ].
  change (0 + 1 =? 3) with false. cbv iota.
  rewrite utf8_step_continue by lia.
  change (0 + 1 + 1 =? 3) with false. cbv iota.
  rewrite utf8_step_continue by lia.
  change (0 + 1 + 1 + 1 =? 3) with true. cbv iota.
  cbn [app]. rewrite app_nil_r. do 2 f_equal.
  replace (c / 262144 * 64 + (c / 4096) mod 64) with (c / 4096) by (clear; lia).
  replace (c / 4096 * 64 + (c / 64) mod 64) with (c / 64) by (clear; lia).
  clear; lia.
Qed.

Lemma decode_three_bytes c :
  0x800 <= c -> c < 0x10000 -> ~ (0xD800 <= c <= 0xDFFF) ->
  utf8_run utf8_init (utf8_bytes c) = (utf8_init, code_units c).
Proof.
  intros Hlo Hhi Hs. unfold utf8_bytes.
  rewrite (proj2 (N.ltb_ge c 0x80)) by lia.
  rewrite (proj2 (N.ltb_ge c 0x800)) by lia.
  rewrite (proj2 (N.ltb_lt c 0x10000)) by lia.
  rewrite !land_3F, shiftr_6, shiftr_12.
  rewrite lor_E0 by lia. rewrite !lor_80 by lia.
  cbn [utf8_run]. rewrite !to_N_byte_of by lia.
  rewrite utf8_lead_three by lia.
  rewrite utf8_step_continue;
    [ | lia | lia
      | destruct (N.eqb_spec (c / 4096) 0); lia
      | destruct (N.eqb_spec (c / 4096) 13); lia ].
  change (0 + 1 =? 2) with false. cbv iota.
  rewrite utf8_step_continue by lia.
  change (0 + 1 + 1 =? 2) with true. cbv iota.
  cbn [app]. rewrite app_nil_r. do 2 f_equal.
  replace (c / 4096 * 64 + (c / 64) mod 64) with (c / 64) by (clear; lia).
  clear; lia.
Qed.

Lemma decode_two_bytes c :
  0x80 <= c -> c < 0x800 ->
  utf8_run utf8_init (utf8_bytes c) = (utf8_init, code_units c).
Proof.
  intros Hlo Hhi. unfold utf8_bytes.
  rewrite (proj2 (N.ltb_ge c 0x80)) by lia.
  rewrite (proj2 (N.ltb_lt c 0x800)) by lia.
  rewrite !land_3F, shiftr_6.
  rewrite lor_C0 by lia. rewrite !lor_80 by lia.
  cbn [utf8_run]. rewrite !to_N_byte_of by lia.
  rewrite utf8_lead_two by lia.
  rewrite utf8_step_continue by lia.
  change (0 + 1 =? 1) with true. cbv iota.
  cbn [app]. rewrite app_nil_r. do 2 f_equal. lia.
Qed.

Lemma decode_one_byte c :
  c < 0x80 -> utf8_run utf8_init (utf8_bytes c) = (utf8_init, code_units c).
Proof.
  intros H. unfold utf8_bytes. rewrite (proj2 (N.ltb_lt c 0x80)) by lia.
  cbn [utf8_run]. rewrite to_N_byte_of by lia. rewrite utf8_lead_one by lia.
  unfold code_units. now rewrite (proj2 (N.ltb_lt c 0x10000)) by lia.
Qed.

Lemma decode_code_point c :
  c < 0x110000 -> ~ (0xD800 <= c <= 0xDFFF) ->
  utf8_run utf8_init (utf8_bytes c) = (utf8_init, code_units c).
Proof.
  intros Hc Hs.
  destruct (N.lt_ge_cases c 0x80); [now apply decode_one_byte|].
  destruct (N.lt_ge_cases c 0x800); [now apply decode_two_bytes|].
  destruct (N.lt_ge_cases c 0x10000); [now apply decode_three_bytes|].
  now apply decode_four_bytes.
Qed.

Lemma code_units_pair hi lo :
  is_high_surrogate hi = true -> is_low_surrogate lo = true ->
  let c := 0x10000 + N.shiftl (hi - 0xD800) 10 + (lo - 0xDC00) in
  0x10000 <= c /\ c < 0x110000 /\ code_units c = [hi; lo].
Proof.
  unfold is_high_surrogate, is_low_surrogate. intros Hh Hl.
  apply andb_true_iff in Hh as [Hh1 Hh2]. apply andb_true_iff in Hl as [Hl1 Hl2].
  apply N.leb_le in Hh1, Hh2, Hl1, Hl2. cbv zeta.
  rewrite N.shiftl_mul_pow2. change (2 ^ 10) with 1024.
  split; [lia|]. split; [lia|]. unfold code_units.
  rewrite (proj2 (N.ltb_ge _ 0x10000)) by lia.
  rewrite shiftr_10, land_3FF. f_equal; [lia|]. f_equal. lia.
Qed.

Lemma encode_then_run n : forall s,
  (List.length s <= n)%nat -> well_formed s = true ->
  utf8_run utf8_init (TextEncoder_encode s) = (utf8_init, s).
Proof.
  induction n as [|n IH]; intros s Hlen Hwf.
  - destruct s; [reflexivity | simpl in Hlen; lia].
  - destruct s as [|c s']; [reflexivity|].
    cbn [well_formed TextEncoder_encode] in *.
    destruct (is_high_surrogate c) eqn:Eh.
    + destruct s' as [|lo s'']; [discriminate|].
      apply andb_true_iff in Hwf as [El Hwf]. rewrite El.
      destruct (code_units_pair c lo Eh El) as (H1 & H2 & H3). cbv zeta in H1, H2, H3.
      rewrite utf8_run_app, decode_four_bytes by assumption. cbn [fst snd].
      rewrite (IH s'') by (simpl in Hlen; lia || assumption).
      cbn [fst snd]. now rewrite H3.
    + apply andb_true_iff in Hwf as [Hc Hwf]. apply andb_true_iff in Hc as [El Hc].
      apply negb_true_iff in El. apply N.ltb_lt in Hc. rewrite El.
      assert (Hs : ~ (0xD800 <= c <= 0xDFFF)).
      { unfold is_high_surrogate, is_low_surrogate in Eh, El.
        apply andb_false_iff in Eh, El. intros [Ha Hb].
        destruct (N.le_gt_cases c 0xDBFF) as [Hm|Hm].
        - destruct Eh as [E|E]; apply N.leb_gt in E; lia.
        - destruct El as [E|E]; apply N.leb_gt in E; lia. }
      rewrite utf8_run_app, decode_code_point by (lia || assumption).
      cbn [fst snd]. rewrite (IH s') by (simpl in Hlen; lia || assumption).
      cbn [fst snd]. unfold code_units.
      now rewrite (proj2 (N.ltb_lt c 0x10000)) by lia.
Qed.

End Utf8RoundTrip.

Lemma decode_reads_concat values : forall d,
  decode_reads d values = decode_stream d (List.concat values).
Proof.
  induction values as [|v vs IH]; intros d.
  - simpl. now rewrite decode_stream_nil.
  - cbn [decode_reads List.concat]. rewrite decode_stream_app.
    destruct (decode_stream d v) as [d1 chunk]. cbn [fst snd].
    rewrite IH. now destruct (decode_stream d1 (List.concat vs)).
Qed.

(** X13. Encoding and decoding are a round trip. The bytes that
    [TextEncoder] makes of a well-formed string are decoded to that string by
    [Buffer#toString]; and by a streaming [TextDecoder] too, however the
    bytes are cut into reads - a cut inside a character included - except
    that a byte order mark at the very start is dropped. *)
Theorem encode_decode_round_trip s values :
  well_formed s = true ->
  List.concat values = TextEncoder_encode s ->
  Buffer_toString (TextEncoder_encode s) = s /\
  snd (decode_reads new_TextDecoder values)
  = match s with
    | [] => []
    | c :: s' => if c =? 0xFEFF then s' else s
    end.
Proof.
  intros Hwf Hv.
  pose proof (encode_then_run (List.length s) s (Nat.le_refl _) Hwf) as Hrun.
  split.
  - unfold Buffer_toString. rewrite Hrun. simpl. apply app_nil_r.
  - rewrite decode_reads_concat, Hv. unfold decode_stream.
    cbn [dec_utf8 dec_bom_seen new_TextDecoder]. rewrite Hrun.
    destruct s as [|c s']; [reflexivity|]. reflexivity.
Qed.

Lemma encode_decode_round_trip_witness :
  Buffer_toString (TextEncoder_encode [0x61; 0xE9; 0x20AC; 0xD83D; 0xDE00]) 
  = [0x61; 0xE9; 0x20AC; 0xD83D; 0xDE00] /\
  snd (decode_reads new_TextDecoder
         [firstn 5 (TextEncoder_encode [0x61; 0xE9; 0x20AC; 0xD83D; 0xDE00]);
          skipn 5 (TextEncoder_encode [0x61; 0xE9; 0x20AC; 0xD83D; 0xDE00])])
  = [0x61; 0xE9; 0x20AC; 0xD83D; 0xDE00].
Proof.
  apply (encode_decode_round_trip [0x61; 0xE9; 0x20AC; 0xD83D; 0xDE00]
           [firstn 5 (TextEncoder_encode [0x61; 0xE9; 0x20AC; 0xD83D; 0xDE00]);
            skipn 5 (TextEncoder_encode [0x61; 0xE9; 0x20AC; 0xD83D; 0xDE00])]);
    reflexivity.
Defined.

(** ** Input that never ends a line *)

(** X14. There is no limit on a line: as long as no newline arrives, nothing
    is posted and the input buffer holds all the text received so far. *)
Theorem unterminated_input_is_kept rt chunks b :
  indexOf NL (inputBuffer b ++ List.concat (List.map Buffer_toString chunks)) = None ->
  fst (run rt (List.map StdinData chunks) b) = [] /\
  inputBuffer (snd (run rt (List.map StdinData chunks) b))
  = inputBuffer b ++ List.concat (List.map Buffer_toString chunks).
Proof.
  intros H. pose proof H as H'. apply indexOf_None_app in H' as [Hb _].
  rewrite (run_stdin rt chunks b Hb). cbn [fst snd inputBuffer set_inputBuffer].
  destruct (segments_closed _ H) as [-> ->]. now split.
Qed.

Lemma unterminated_input_is_kept_witness :
  inputBuffer (snd (run echo_runtime
                      (List.map StdinData [[x61; x62]; [x63]]%byte) sample_bridge))
  = [97; 98; 99].
Proof.
  apply (unterminated_input_is_kept echo_runtime [[x61; x62]; [x63]]%byte sample_bridge).
  reflexivity.
Defined.

(** ** The calculator of the two servers *)

Section CalculatorFacts.

Variable number : Type.
Variables plus minus times divided_by : number -> number -> number.
Variable is_zero : number -> bool.
Variable show : number -> jsstring.

#[local] Abbreviation remote :=
  (remote_calculate number plus minus times divided_by is_zero show).
#[local] Abbreviation local :=
  (local_calculate number plus minus times divided_by is_zero show).

(** X15. On the four operations the calculator of the worker and the
    calculator of the local server give the same result; dividing by zero is
    in both the error [Division by zero], and the division is not carried
    out: the result is the same whatever the division would return. *)
Theorem calculators_agree_on_operations operation a b :
  In operation [js "add"; js "subtract"; js "multiply"; js "divide"] ->
  remote operation a b = local operation a b /\
  (operation = js "divide" -> is_zero b = true ->
   remote operation a b = mk_tool_result (js "Error: Division by zero") true /\
   forall other_division,
     remote_calculate number plus minus times other_division is_zero show operation a b
     = remote operation a b).
Proof.
  intros Hop. unfold remote_calculate, local_calculate. split.
  - destruct Hop as [<-|[<-|[<-|[<-|[]]]]]; reflexivity.
  - intros -> Hz. change (jsstring_eqb (js "divide") (js "add")) with false.
    change (jsstring_eqb (js "divide") (js "subtract")) with false.
    change (jsstring_eqb (js "divide") (js "multiply")) with false.
    change (jsstring_eqb (js "divide") (js "divide")) with true.
    cbv iota. rewrite Hz. split; reflexivity.
Qed.

(** X16. On any other operation the two differ: the local server answers
    with the error [Unknown operation: ...]; the worker answers with a
    result that is no error and ends in [= undefined]. *)
Theorem calculators_differ_on_unknown_operation operation a b :
  ~ In operation [js "add"; js "subtract"; js "multiply"; js "divide"] ->
  local operation a b
  = mk_tool_result (js "Error: Unknown operation: " ++ operation) true /\
  remote operation a b
  = mk_tool_result
      (js "Result: " ++ show a ++ js " " ++ operation ++ js " " ++ show b
          ++ js " = undefined") false.
Proof.
  intros Hop. unfold remote_calculate, local_calculate.
  assert (H : forall lit, In lit [js "add"; js "subtract"; js "multiply"; js "divide"] ->
                          jsstring_eqb operation lit = false).
  { intros lit Hl. destruct (jsstring_eqb operation lit) eqn:E; [|reflexivity].
    apply jsstring_eqb_eq in E. subst lit. now elim Hop. }
  rewrite !H by (simpl; auto). split.
  - reflexivity.
  - reflexivity.
Qed.

End CalculatorFacts.

Lemma calculators_agree_on_operations_witness :
  sample_calculate_remote (js "divide") (Infinity false) (Zero true)
  = sample_calculate_local (js "divide") (Infinity false) (Zero true) /\
  sample_calculate_remote (js "divide") (Infinity false) (Zero true)
  = mk_tool_result (js "Error: Division by zero") true.
Proof.
  destruct (calculators_agree_on_operations special special_add special_sub special_mul
              special_div special_is_zero special_show
              (js "divide") (Infinity false) (Zero true)) as [H1 H2].
  - simpl. auto.
  - split; [exact H1|]. apply H2; reflexivity.
Defined.

Lemma calculators_differ_on_unknown_operation_witness :
  sample_calculate_local (js "power") (Zero false) (Infinity true)
  = mk_tool_result (js "Error: Unknown operation: power") true /\
  sample_calculate_remote (js "power") (Zero false) (Infinity true)
  = mk_tool_result (js "Result: 0 power -Infinity = undefined") false.
Proof.
  apply (calculators_differ_on_unknown_operation special special_add special_sub
           special_mul special_div special_is_zero special_show
           (js "power") (Zero false) (Infinity true)).
  simpl. intros [H|[H|[H|[H|[]]]]]; discriminate.
Defined.
